(** * TD8, part 1: the dense 5-point-stencil Laplace solver

    A shallow embedding of the notebook cell that defines [matrix_builder],
    [matrix_solver], [plot_solution] and [naive_solver], and the properties
    of the assembled linear system [A X = B].

    Conventions of the embedding:
    - Python [int] is [Z]; Python/NumPy floating-point numbers are exact
      rationals [Q] (rounding of binary64 is not modelled);
    - NumPy arrays that the code allocates and then mutates ([A], [B], the
      solution [X]) live in a store of arrays and are named by references;
      arrays that are only read ([x], [y], [x_grid], [y_grid]) are values;
    - a Python call either returns a value and a new store, or raises. *)

From Stdlib Require Import QArith Qabs Lqa ZArith Lia.
From stdpp Require Import base list numbers.

Local Open Scope Z_scope.

(** ** Python runtime: exceptions, results, the store of arrays *)

Inductive exn : Type :=
| ValueError
| IndexError
| ZeroDivisionError
| NameError.

Inductive result (A : Type) : Type :=
| Ok (a : A)
| Raise (e : exn).
Arguments Ok {A} a.
Arguments Raise {A} e.

Inductive ndarray : Type :=
| Arr1 (v : list Q)
| Arr2 (m : list (list Q)).

(** A reference is the position of the array in the store; allocation
    appends, so references handed out earlier stay valid. *)
Abbreviation ref := nat (only parsing).
Abbreviation heap := (list ndarray).

Definition M (A : Type) : Type := heap -> result (A * heap).

Definition ret {A} (a : A) : M A := fun h => Ok (a, h).

Definition bind {A B} (c : M A) (k : A -> M B) : M B :=
  fun h => match c h with
           | Ok (a, h') => k a h'
           | Raise e => Raise e
           end.

Definition lift {A} (r : result A) : M A :=
  fun h => match r with
           | Ok a => Ok (a, h)
           | Raise e => Raise e
           end.

Definition alloc (a : ndarray) : M ref :=
  fun h => Ok (length h, h ++ [a]).

#[global] Instance M_ret : MRet M := @ret.
#[global] Instance M_bind : MBind M := fun A B k c => bind c k.

(** [for v in l: body(v)] *)
Fixpoint for_each {A} (l : list A) (body : A -> M unit) : M unit :=
  match l with
  | [] => ret tt
  | v :: l' => body v ;; for_each l' body
  end.

(** [range(n)] *)
Definition range (n : Z) : list Z := seqZ 0 n.

(** ** NumPy primitives used by the cell *)

Definition Qltb (a b : Q) : bool := negb (Qle_bool b a).

(** An index into an axis of length [len]: negative indices count from the
    end, anything outside [-len, len) raises [IndexError]. *)
Definition np_index (len : nat) (idx : Z) : result nat :=
  if (0 <=? idx) && (idx <? Z.of_nat len) then Ok (Z.to_nat idx)
  else if (- Z.of_nat len <=? idx) && (idx <? 0)
       then Ok (Z.to_nat (idx + Z.of_nat len))
       else Raise IndexError.

(** [np.zeros((n, m))] and [np.zeros(n)] *)
Definition np_zeros2 (n m : Z) : M ref :=
  if (n <? 0) || (m <? 0) then lift (Raise ValueError)
  else alloc (Arr2 (replicate (Z.to_nat n) (replicate (Z.to_nat m) (0 : Q)))).

Definition np_zeros1 (n : Z) : M ref :=
  if n <? 0 then lift (Raise ValueError)
  else alloc (Arr1 (replicate (Z.to_nat n) (0 : Q))).

(** [m[i, j]] on an array value *)
Definition getitem2 (m : list (list Q)) (i j : Z) : result Q :=
  match np_index (length m) i with
  | Raise e => Raise e
  | Ok i' =>
      match m !! i' with
      | None => Raise IndexError
      | Some row =>
          match np_index (length row) j with
          | Raise e => Raise e
          | Ok j' =>
              match row !! j' with
              | None => Raise IndexError
              | Some v => Ok v
              end
          end
      end
  end.

(** [a[r, c] = v] on a stored array: the row and the column are resolved
    by [np_index]; a one-dimensional array does not take two indices. *)
Definition setitem2 (a : ref) (r c : Z) (v : Q) : M unit :=
  fun h =>
    match h !! a with
    | None => Raise NameError
    | Some (Arr1 _) => Raise IndexError
    | Some (Arr2 m) =>
        match np_index (length m) r with
        | Raise e => Raise e
        | Ok r' =>
            match m !! r' with
            | None => Raise IndexError
            | Some row =>
                match np_index (length row) c with
                | Raise e => Raise e
                | Ok c' =>
                    Ok (tt, <[a := Arr2 (<[r' := <[c' := v]> row]> m)]> h)
                end
            end
        end
    end.

(** [b[k] = v] on a stored one-dimensional array. *)
Definition setitem1 (b : ref) (k : Z) (v : Q) : M unit :=
  fun h =>
    match h !! b with
    | None => Raise NameError
    | Some (Arr2 _) => Raise ValueError
    | Some (Arr1 vec) =>
        match np_index (length vec) k with
        | Raise e => Raise e
        | Ok k' => Ok (tt, <[b := Arr1 (<[k' := v]> vec)]> h)
        end
    end.

(** [np.linspace(start, stop, num)] (endpoint included): [num] samples
    [i * step + start], the last one overwritten by [stop]. *)
Definition linspace (start stop : Q) (num : Z) : result (list Q) :=
  if num <? 0 then Raise ValueError
  else
    let div := num - 1 in
    let delta := (stop - start)%Q in
    let y := inject_Z <$> seqZ 0 num in
    let y :=
      if 0 <? div then
        let step := (delta / inject_Z div)%Q in
        if Qeq_bool step 0
        then (fun v => v / inject_Z div * delta)%Q <$> y
        else (fun v => v * step)%Q <$> y
      else (fun v => v * delta)%Q <$> y in
    let y := (fun v => v + start)%Q <$> y in
    Ok (if 1 <? num then <[Z.to_nat (num - 1) := stop]> y else y).

(** [np.meshgrid(x, y, indexing='ij')]: [x_grid[i, j] = x[i]] and
    [y_grid[i, j] = y[j]], both of shape [(len(x), len(y))]. *)
Definition meshgrid_ij (x y : list Q) : list (list Q) * list (list Q) :=
  ((fun xi => (fun _ => xi) <$> y) <$> x, (fun _ => y) <$> x).

(** ** The cell: [matrix_builder] *)

(** Line 97: [np.abs(x_grid[i, j]) < L/2 and np.abs(y_grid[i, j]) < L/2];
    [and] reads [y_grid] only when the first comparison holds. *)
Definition inside_Omega (x_grid y_grid : list (list Q)) (L : Q) (i j : Z)
    : result bool :=
  match getitem2 x_grid i j with
  | Raise e => Raise e
  | Ok xij =>
      if Qltb (Qabs xij) (L / 2) then
        match getitem2 y_grid i j with
        | Raise e => Raise e
        | Ok yij => Ok (Qltb (Qabs yij) (L / 2))
        end
      else Ok false
  end.

(** Lines 98-102: the five assignments of an interior row. *)
Definition interior_row (A : ref) (N i j : Z) : M unit :=
  setitem2 A (i * N + j) (i * N + j) (-4) ;;
  setitem2 A (i * N + j) ((i - 1) * N + j) 1 ;;
  setitem2 A (i * N + j) ((i + 1) * N + j) 1 ;;
  setitem2 A (i * N + j) (i * N + j + 1) 1 ;;
  setitem2 A (i * N + j) (i * N + j - 1) 1.

(** Lines 104-105: the two assignments of a boundary row. *)
Definition boundary_row (g : Q -> Q -> result Q) (A B : ref)
    (x_grid y_grid : list (list Q)) (N i j : Z) : M unit :=
  setitem2 A (i * N + j) (i * N + j) 1 ;;
  xij ← lift (getitem2 x_grid i j);
  yij ← lift (getitem2 y_grid i j);
  v ← lift (g xij yij);
  setitem1 B (i * N + j) v.

(** Lines 97-105: the body of the inner loop at grid point [(i, j)]. *)
Definition grid_point (g : Q -> Q -> result Q) (A B : ref)
    (x_grid y_grid : list (list Q)) (N : Z) (L : Q) (i j : Z) : M unit :=
  inside ← lift (inside_Omega x_grid y_grid L i j);
  if (inside : bool)
  then interior_row A N i j
  else boundary_row g A B x_grid y_grid N i j.

(** Lines 82-107 with the nested function [g] of lines 92-93 taken as an
    argument: the loop calls it at boundary points only. *)
Definition matrix_builder_from (g : Q -> Q -> result Q) (N : Z) (L : Q)
    : M (ref * ref) :=
  x ← lift (linspace (- L / 2) (L / 2) N);
  y ← lift (linspace (- L / 2) (L / 2) N);
  let '(x_grid, y_grid) := meshgrid_ij x y in
  A ← np_zeros2 (N * N) (N * N);
  B ← np_zeros1 (N * N);
  for_each (range (Z.of_nat (length x))) (fun i =>
    for_each (range (Z.of_nat (length y))) (fun j =>
      grid_point g A B x_grid y_grid N L i j)) ;;
  ret (A, B).

(** ** [scipy.linalg.lu_factor] and [lu_solve]

    SciPy hands the matrix to LAPACK: [getrf] computes [P A = L U] by
    Gaussian elimination with partial pivoting (row interchanges), [getrs]
    applies the interchanges to [B] and solves the two triangular systems.
    The model performs the same steps in exact rational arithmetic, every
    computed entry kept in lowest terms ([Qred]).  On a
    zero pivot LAPACK divides by zero, which in binary64 gives an infinity
    or a NaN and no exception; [Q] has neither, and the model is
    meaningful only where every pivot is nonzero. *)

Definition entry (a : list (list Q)) (r c : nat) : Q :=
  default (0 : Q) (a !! r ≫= (.!! c)).

(** First row among [rows] whose entry in column [k] has the largest
    absolute value, starting from the candidate [best]. *)
Fixpoint argmax_abs (a : list (list Q)) (k : nat) (rows : list nat)
    (best : nat) : nat :=
  match rows with
  | [] => best
  | r :: rows' =>
      if Qltb (Qabs (entry a best k)) (Qabs (entry a r k))
      then argmax_abs a k rows' r
      else argmax_abs a k rows' best
  end.

Definition swap {A} (l : list A) (i j : nat) : list A :=
  match l !! i, l !! j with
  | Some x, Some y => <[i := y]> (<[j := x]> l)
  | _, _ => l
  end.

(** Column [k] of the elimination: interchange, multipliers below the
    diagonal, update of the trailing rows. *)
Definition eliminate (a : list (list Q)) (k : nat) : list (list Q) * nat :=
  let n := length a in
  let p := argmax_abs a k (seq (S k) (n - S k)) k in
  let a1 := swap a k p in
  let rowk := default [] (a1 !! k) in
  let pivot := default (0 : Q) (rowk !! k) in
  let a2 :=
    imap (fun r row =>
            if (k <? r)%nat then
              let f := Qred (default (0 : Q) (row !! k) / pivot) in
              imap (fun c v =>
                      if (c =? k)%nat then f
                      else if (k <? c)%nat
                           then Qred (v - f * default (0 : Q) (rowk !! c))
                           else v) row
            else row) a1 in
  (a2, p).

Definition lu_factor (a : list (list Q)) : list (list Q) * list nat :=
  foldl (fun '(lu, piv) k =>
           let '(lu', p) := eliminate lu k in (lu', piv ++ [p]))
        (a, []) (seq 0 (length a)).

Definition dot_range (row x : list Q) (cols : list nat) : Q :=
  foldl (fun s c => Qred (s + default (0 : Q) (row !! c)
                              * default (0 : Q) (x !! c))) (0 : Q) cols.

Definition lu_solve (lu_piv : list (list Q) * list nat) (b : list Q)
    : list Q :=
  let '(lu, piv) := lu_piv in
  let n := length lu in
  let b1 := foldl (fun b' '(k, p) => swap b' k p) b (imap pair piv) in
  let y := foldl (fun y k =>
                    <[k := Qred (default (0 : Q) (b1 !! k)
                                 - dot_range (default [] (lu !! k)) y
                                     (seq 0 k))]> y)
                 b1 (seq 0 n) in
  foldl (fun x k =>
           <[k := Qred ((default (0 : Q) (y !! k)
                         - dot_range (default [] (lu !! k)) x
                             (seq (S k) (n - S k)))
                        / entry lu k k)]> x)
        y (rev (seq 0 n)).

(** [A X = B], row by row. *)
Definition dot (row x : list Q) : Q :=
  foldr Qplus (0 : Q) (zip_with Qmult row x).

Definition solves (a : list (list Q)) (x b : list Q) : bool :=
  (length a =? length b)%nat
  && forallb (fun '(row, bk) => Qeq_bool (dot row x) bk) (zip a b).

Definition is_square (a : list (list Q)) : bool :=
  forallb (fun row => (length row =? length a)%nat) a.

(** Lines 109-110: [la.lu_solve(la.lu_factor(A), B)]; [A] and [B] are
    read, the solution is a new array. *)
Definition matrix_solver (A B : ref) : M ref :=
  fun h =>
    match h !! A, h !! B with
    | Some (Arr2 a), Some (Arr1 b) =>
        if is_square a && (length b =? length a)%nat
        then alloc (Arr1 (lu_solve (lu_factor a) b)) h
        else Raise ValueError
    | Some _, Some _ => Raise ValueError
    | _, _ => Raise NameError
    end.

(** ** [reshape] and [plot_solution] *)

Fixpoint chunks (rows n : nat) (X : list Q) : list (list Q) :=
  match rows with
  | O => []
  | S rows' => take n X :: chunks rows' n (drop n X)
  end.

(** [X.reshape((n, m))], row-major. *)
Definition reshape2 (X : list Q) (n m : Z) : result (list (list Q)) :=
  if (n <? 0) || (m <? 0) then Raise ValueError
  else if Z.of_nat (length X) =? n * m
       then Ok (chunks (Z.to_nat n) (Z.to_nat m) X)
       else Raise ValueError.

(** What a Python call hands back: [None] or a reference to an array. *)
Inductive pyobj : Type :=
| PyNone
| PyRef (r : ref).

(** [L / d] for a Python integer [d]. *)
Definition py_div (L : Q) (d : Z) : result Q :=
  if d =? 0 then Raise ZeroDivisionError else Ok (L / inject_Z d)%Q.

(** Lines 112-130.  The calls to [matplotlib.pyplot] draw and touch no
    array; the function has no [return]. *)
Definition plot_solution (N : Z) (L : Q) (X : ref) : M pyobj :=
  h ← lift (py_div L (N - 1));
  z_grid ← (fun s => match s !! X with
                     | Some (Arr1 v) => lift (reshape2 v N N) s
                     | Some (Arr2 _) => Raise ValueError
                     | None => Raise NameError
                     end);
  x_corner_points ← lift (linspace (- L / 2 - h / 2) (L / 2 + h / 2) (N + 1));
  y_corner_points ← lift (linspace (- L / 2 - h / 2) (L / 2 + h / 2) (N + 1));
  ret PyNone.


Section Numpy.
(** [np.cos] and [np.pi] belong to NumPy, not to the notebook. *)
Variable np_cos : Q -> Q.
Variable np_pi : Q.

(** Lines 92-93: [g(x, y) = np.cos(2*np.pi/L * (2*x + y))]; the division
    raises on [L = 0]. *)
Definition g (L x y : Q) : result Q :=
  if Qeq_bool L 0 then Raise ZeroDivisionError
  else Ok (np_cos (2 * np_pi / L * (2 * x + y)))%Q.

(** Lines 81-107. *)
Definition matrix_builder (N : Z) (L : Q) : M (ref * ref) :=
  matrix_builder_from (g L) N L.

End Numpy.

Definition total (g : Q -> Q -> Q) : Q -> Q -> result Q :=
  fun x y => Ok (g x y).

(** ** The assembled system in closed form *)

(** Index classification of the grid point [(i, j)] of an [N x N] grid. *)
Definition interior (N i j : Z) : bool :=
  (0 <? i) && (i <? N - 1) && (0 <? j) && (j <? N - 1).

(** The [i]-th sample of [np.linspace(-L/2, L/2, N)]. *)
Definition grid_coord (N : Z) (L : Q) (i : Z) : Q :=
  match linspace (- L / 2) (L / 2) N with
  | Ok xs => default (0 : Q) (xs !! Z.to_nat i)
  | Raise _ => 0%Q
  end.

(** The test of line 97 at the grid point [(i, j)]. *)
Definition inside_pt (N : Z) (L : Q) (i j : Z) : bool :=
  Qltb (Qabs (grid_coord N L i)) (L / 2)
  && Qltb (Qabs (grid_coord N L j)) (L / 2).

(** Entry [(k, c)] of the matrix: the stencil on a row that passed the
    test, the identity on a row that did not. *)
Definition stencil_entry (N : Z) (inside : bool) (k c : Z) : Q :=
  if inside then
    if c =? k then (-4)%Q
    else if (c =? k - N) || (c =? k + N) || (c =? k - 1) || (c =? k + 1)
         then 1%Q else 0%Q
  else if c =? k then 1%Q else 0%Q.

Definition stencil_row (N : Z) (inside : bool) (k : Z) : list Q :=
  stencil_entry N inside k <$> seqZ 0 (N * N).

Definition system_matrix (N : Z) (L : Q) : list (list Q) :=
  (fun k => stencil_row N (inside_pt N L (k / N) (k mod N)) k)
    <$> seqZ 0 (N * N).

Definition rhs_entry (g : Q -> Q -> Q) (N : Z) (L : Q) (k : Z) : Q :=
  if inside_pt N L (k / N) (k mod N) then 0%Q
  else g (grid_coord N L (k / N)) (grid_coord N L (k mod N)).

Definition system_rhs (g : Q -> Q -> Q) (N : Z) (L : Q) : list Q :=
  rhs_entry g N L <$> seqZ 0 (N * N).

(** The arrays after the first [k] grid points (row-major) are done. *)
Definition matrix_upto (N : Z) (L : Q) (k : Z) : list (list Q) :=
  (fun r => if r <? k
            then stencil_row N (inside_pt N L (r / N) (r mod N)) r
            else replicate (Z.to_nat (N * N)) (0 : Q))
    <$> seqZ 0 (N * N).

Definition rhs_upto (g : Q -> Q -> Q) (N : Z) (L : Q) (k : Z) : list Q :=
  (fun r => if r <? k then rhs_entry g N L r else 0%Q) <$> seqZ 0 (N * N).

(** [a[r][c]] for indices that are not negative. *)
Definition cell (a : list (list Q)) (r c : Z) : option Q :=
  if (0 <=? r) && (0 <=? c)
  then a !! Z.to_nat r ≫= (.!! Z.to_nat c)
  else None.

(** ** The codec between the solution vector and the field *)

(** Line 117: [z_grid = X.reshape((N, N))] is the decoding [toField]. *)
Definition toField (X : list Q) (N : Z) : result (list (list Q)) :=
  reshape2 X N N.

(** Modelled from the spec: the cell has no inverse of the [reshape] of
    line 117.  [toVector(field, N)] is the vector [X] with
    [X[i*N + j] = field[i][j]]; it is refused unless [field] is [N x N]. *)
Definition toVector (field : list (list Q)) (N : Z) : result (list Q) :=
  if (0 <=? N) && (Z.of_nat (length field) =? N)
     && forallb (fun row => Z.of_nat (length row) =? N) field
  then Ok (concat field)
  else Raise ValueError.

(** ** Counting the nonzero entries *)




(** ** Reading vectors on the grid *)

(** [X[k]] for an index in range. *)
Definition item (X : list Q) (k : Z) : Q := default (0 : Q) (X !! Z.to_nat k).

(** The samples of a function at the grid points, in the order of the flat
    index. *)
Definition grid_samples (g : Q -> Q -> Q) (N : Z) (L : Q) : list Q :=
  (fun k => g (grid_coord N L (k / N)) (grid_coord N L (k mod N)))
    <$> seqZ 0 (N * N).


(** Lines 123-124: [np.linspace(-L/2 - h/2, L/2 + h/2, N + 1)], the corners
    of the cells that [plt.pcolor] draws. *)
Definition corner_points (N : Z) (L h : Q) : result (list Q) :=
  linspace (- L / 2 - h / 2) (L / 2 + h / 2) (N + 1).

(** The equation of the grid point [(i, j)]: the five-point stencil at an
    interior point, the boundary value at a boundary point. *)
Definition point_equation (g : Q -> Q -> Q) (N : Z) (L : Q) (X : list Q)
    (i j : Z) : Prop :=
  if interior N i j then
    (item X ((i - 1) * N + j) + item X ((i + 1) * N + j)
     + item X (i * N + j + 1) + item X (i * N + j - 1)
     - 4 * item X (i * N + j) == 0)%Q
  else (item X (i * N + j) == g (grid_coord N L i) (grid_coord N L j))%Q.

(** ** TD5: the initial condition of the advection problem *)

(** [np.maximum(a, b)] on two numbers. *)
Definition np_maximum (a b : Q) : Q := if Qle_bool a b then b else a.

(** [u0(x) = np.maximum(0, 1 - np.abs(x))] on a number, and on an array
    (NumPy applies it entry by entry). *)
Definition u0 (x : Q) : Q := np_maximum 0 (1 - Qabs x).

Definition u0_array (xs : list Q) : list Q := u0 <$> xs.

(** ** Basic facts: the monad, indices, the store *)

Lemma bind_Ok {A B} (c : M A) (k : A -> M B) h a h' :
  c h = Ok (a, h') -> (c ≫= k) h = k a h'.
Proof. intros Hc. unfold mbind, M_bind, bind. by rewrite Hc. Qed.

Lemma bind_Raise {A B} (c : M A) (k : A -> M B) h e :
  c h = Raise e -> (c ≫= k) h = Raise e.
Proof. intros Hc. unfold mbind, M_bind, bind. by rewrite Hc. Qed.

Lemma lift_Ok {A} (r : result A) a h : r = Ok a -> lift r h = Ok (a, h).
Proof. by intros ->. Qed.

Lemma np_index_inrange len idx :
  0 <= idx < Z.of_nat len -> np_index len idx = Ok (Z.to_nat idx).
Proof.
  intros H. unfold np_index.
  destruct (Z.leb_spec 0 idx), (Z.ltb_spec idx (Z.of_nat len)); simpl;
    [done|lia..].
Qed.

Lemma np_index_Ok len idx n : np_index len idx = Ok n -> (n < len)%nat.
Proof.
  unfold np_index.
  destruct (Z.leb_spec 0 idx), (Z.ltb_spec idx (Z.of_nat len)); simpl;
    try (intros [= <-]; lia);
    destruct (Z.leb_spec (- Z.of_nat len) idx), (Z.ltb_spec idx 0); simpl;
    try (intros [= <-]; lia); done.
Qed.

(** A write into the matrix stored first after [h]. *)
Lemma setitem2_run (h : heap) m b r c v row :
  m !! Z.to_nat r = Some row ->
  0 <= r -> 0 <= c < Z.of_nat (length row) ->
  setitem2 (length h) r c v (h ++ [Arr2 m; Arr1 b]) =
  Ok (tt, h ++ [Arr2 (<[Z.to_nat r := <[Z.to_nat c := v]> row]> m); Arr1 b]).
Proof.
  intros Hrow Hr Hc. unfold setitem2.
  rewrite (lookup_app_r h) by lia. rewrite Nat.sub_diag. simpl.
  apply lookup_lt_Some in Hrow as Hlt.
  rewrite np_index_inrange by lia. rewrite Hrow.
  rewrite np_index_inrange by lia.
  do 2 f_equal.
  rewrite <- (Nat.add_0_r (length h)) at 1.
  by rewrite insert_app_r.
Qed.

(** A write into the vector stored second after [h]. *)
Lemma setitem1_run (h : heap) m b k v :
  0 <= k < Z.of_nat (length b) ->
  setitem1 (S (length h)) k v (h ++ [Arr2 m; Arr1 b]) =
  Ok (tt, h ++ [Arr2 m; Arr1 (<[Z.to_nat k := v]> b)]).
Proof.
  intros Hk. unfold setitem1.
  rewrite (lookup_app_r h) by lia.
  replace (S (length h) - length h)%nat with 1%nat by lia. simpl.
  rewrite np_index_inrange by lia.
  do 2 f_equal.
  replace (S (length h)) with (length h + 1)%nat by lia.
  by rewrite insert_app_r.
Qed.

(** ** The grid *)

Lemma linspace_length a b N xs :
  linspace a b N = Ok xs -> length xs = Z.to_nat N.
Proof.
  unfold linspace. destruct (N <? 0); [done|]. intros [= <-].
  destruct (1 <? N); rewrite ?length_insert, length_fmap;
    destruct (0 <? N - 1); try destruct (Qeq_bool _ _);
    by rewrite !length_fmap, length_seqZ.
Qed.

Lemma linspace_total a b N :
  0 <= N -> exists xs, linspace a b N = Ok xs.
Proof.
  intros HN. unfold linspace.
  destruct (Z.ltb_spec N 0); [lia|]. eauto.
Qed.

Lemma linspace_negative a b N : N < 0 -> linspace a b N = Raise ValueError.
Proof.
  intros HN. unfold linspace. by destruct (Z.ltb_spec N 0); [|lia].
Qed.

Lemma getitem2_x_grid (x y : list Q) i j xi :
  x !! Z.to_nat i = Some xi ->
  0 <= i -> 0 <= j < Z.of_nat (length y) ->
  getitem2 (meshgrid_ij x y).1 i j = Ok xi.
Proof.
  intros Hx Hi Hj. unfold getitem2, meshgrid_ij. simpl.
  apply lookup_lt_Some in Hx as Hlt.
  rewrite length_fmap, np_index_inrange by lia.
  rewrite list_lookup_fmap, Hx. simpl.
  rewrite length_fmap, np_index_inrange by lia.
  rewrite list_lookup_fmap.
  destruct (lookup_lt_is_Some_2 y (Z.to_nat j)) as [yj ->]; [lia|done].
Qed.

Lemma getitem2_y_grid (x y : list Q) i j yj :
  y !! Z.to_nat j = Some yj ->
  0 <= j -> 0 <= i < Z.of_nat (length x) ->
  getitem2 (meshgrid_ij x y).2 i j = Ok yj.
Proof.
  intros Hy Hj Hi. unfold getitem2, meshgrid_ij. simpl.
  apply lookup_lt_Some in Hy as Hlt.
  rewrite length_fmap, np_index_inrange by lia.
  rewrite list_lookup_fmap.
  destruct (lookup_lt_is_Some_2 x (Z.to_nat i)) as [xi ->]; [lia|]. simpl.
  rewrite np_index_inrange by lia.
  by rewrite Hy.
Qed.

Lemma grid_coord_lookup N L xs i :
  linspace (- L / 2) (L / 2) N = Ok xs ->
  0 <= i < N ->
  xs !! Z.to_nat i = Some (grid_coord N L i).
Proof.
  intros Hxs Hi. unfold grid_coord. rewrite Hxs.
  apply linspace_length in Hxs.
  destruct (lookup_lt_is_Some_2 xs (Z.to_nat i)) as [v ->]; [lia|done].
Qed.

(** The test of line 97 evaluates to [inside_pt]. *)
Lemma inside_Omega_run N L xs i j :
  linspace (- L / 2) (L / 2) N = Ok xs ->
  0 <= i < N -> 0 <= j < N ->
  inside_Omega (meshgrid_ij xs xs).1 (meshgrid_ij xs xs).2 L i j =
  Ok (inside_pt N L i j).
Proof.
  intros Hxs Hi Hj. unfold inside_Omega, inside_pt.
  pose proof (linspace_length _ _ _ _ Hxs) as Hlen.
  rewrite (getitem2_x_grid xs xs i j (grid_coord N L i))
    by (eauto using grid_coord_lookup || lia).
  destruct (Qltb (Qabs (grid_coord N L i)) (L / 2)); [|done].
  by rewrite (getitem2_y_grid xs xs i j (grid_coord N L j))
    by (eauto using grid_coord_lookup || lia).
Qed.

(** [lra] takes [/ 2] for an atom: spell the halves as [1 # 2]. *)
Ltac halves := unfold Qdiv in *; change (/ 2)%Q with (1 # 2)%Q in *.

Lemma Qltb_lt a b : Qltb a b = true <-> (a < b)%Q.
Proof.
  unfold Qltb. rewrite negb_true_iff, <- not_true_iff_false, Qle_bool_iff.
  split; [apply Qnot_le_lt | apply Qlt_not_le].
Qed.

(** The samples are the grid coordinates [x_i = -L/2 + i h], [h = L/(N-1)]. *)
Lemma grid_coord_eq N L i :
  2 <= N -> 0 <= i < N ->
  (grid_coord N L i == - L / 2 + inject_Z i * (L / inject_Z (N - 1)))%Q.
Proof.
  intros HN Hi. unfold grid_coord, linspace.
  destruct (Z.ltb_spec N 0); [lia|].
  destruct (Z.ltb_spec 1 N); [|lia].
  destruct (Z.ltb_spec 0 (N - 1)); [|lia].
  assert (Hd : ~ (inject_Z (N - 1) == 0)%Q).
  { intros Hd. change 0%Q with (inject_Z 0) in Hd.
    rewrite inject_Z_injective in Hd. lia. }
  destruct (decide (i = N - 1)) as [->|Hne].
  - rewrite list_lookup_insert_eq.
    + simpl. field. done.
    + destruct (Qeq_bool _ _); rewrite !length_fmap, length_seqZ; lia.
  - rewrite list_lookup_insert_ne by lia.
    destruct (Qeq_bool _ _);
      rewrite !list_lookup_fmap, lookup_seqZ_lt by lia; simpl;
      rewrite Z2Nat.id, Z.add_0_l by lia; field; done.
Qed.

Lemma grid_coord_single L :
  (grid_coord 1 L 0 == - L / 2)%Q.
Proof.
  unfold grid_coord, linspace. simpl.
  change (inject_Z (Z.of_nat 0 + 0)) with 0%Q. field.
Qed.

(** Line 97 on one axis: a sample lies strictly inside exactly when the
    domain is non-degenerate and the index is not the first or the last. *)
Lemma coord_inside N L i :
  0 <= i < N ->
  Qltb (Qabs (grid_coord N L i)) (L / 2) =
  Qltb 0 L && (0 <? i) && (i <? N - 1).
Proof.
  intros Hi. apply eq_true_iff_eq.
  rewrite !andb_true_iff, !Qltb_lt, !Z.ltb_lt.
  destruct (decide (N = 1)) as [->|HN].
  - assert (i = 0) as -> by lia. rewrite grid_coord_single.
    split; [|lia]. intros H%Qabs_Qlt_condition.
    exfalso. destruct H as [H1 H2]. halves. lra.
  - rewrite grid_coord_eq by lia.
    set (n1 := inject_Z (N - 1)). set (q := inject_Z i).
    assert (Hn1 : (1 <= n1)%Q).
    { change 1%Q with (inject_Z 1). unfold n1. rewrite <- Zle_Qle. lia. }
    assert (Hq0 : (0 <= q)%Q).
    { change 0%Q with (inject_Z 0). unfold q. rewrite <- Zle_Qle. lia. }
    assert (Hqn : (q <= n1)%Q).
    { unfold q, n1. rewrite <- Zle_Qle. lia. }
    assert (Hi0 : 0 < i <-> (0 < q)%Q).
    { change 0%Q with (inject_Z 0). unfold q. by rewrite Zlt_Qlt. }
    assert (Hin : i < N - 1 <-> (q < n1)%Q).
    { unfold q, n1. by rewrite Zlt_Qlt. }
    rewrite Hi0, Hin. clear Hi0 Hin.
    assert (Ht : (n1 * (L / n1) == L)%Q) by (field; lra).
    set (t := (L / n1)%Q) in *.
    rewrite Qabs_Qlt_condition.
    clearbody t n1 q. halves.
    split.
    + intros [H1 H2].
      assert (Hqt : (0 < q * t)%Q) by lra.
      assert (Hqt2 : (q * t < n1 * t)%Q) by lra.
      assert (HL : (0 < L)%Q) by nra.
      assert (Htp : (0 < t)%Q) by nra.
      repeat split; [done|nra..].
    + intros [[HL Hq] Hqn'].
      assert (Htp : (0 < t)%Q) by nra.
      split; nra.
Qed.

(** The test of line 97 is the index classification (when [L > 0]). *)
Lemma inside_pt_interior N L i j :
  0 <= i < N -> 0 <= j < N ->
  inside_pt N L i j = Qltb 0 L && interior N i j.
Proof.
  intros Hi Hj. unfold inside_pt, interior.
  rewrite !coord_inside by done.
  destruct (Qltb 0 L), (0 <? i), (i <? N - 1), (0 <? j), (j <? N - 1); done.
Qed.

(** ** Tabulated lists *)

Lemma lookup_tab {A} (f : Z -> A) n c :
  0 <= c < n -> (f <$> seqZ 0 n) !! Z.to_nat c = Some (f c).
Proof.
  intros Hc. rewrite list_lookup_fmap, lookup_seqZ_lt by lia.
  simpl. f_equal. f_equal. lia.
Qed.

Lemma length_tab {A} (f : Z -> A) n : length (f <$> seqZ 0 n) = Z.to_nat n.
Proof. by rewrite length_fmap, length_seqZ. Qed.

(** A list of the right length with the right entries is the table. *)
Lemma tab_ext {A} (f : Z -> A) n (l : list A) :
  length l = Z.to_nat n ->
  (forall c, 0 <= c < n -> l !! Z.to_nat c = Some (f c)) ->
  l = f <$> seqZ 0 n.
Proof.
  intros Hlen Hl. apply list_eq. intros p.
  destruct (decide (p < length l)%nat) as [Hp|Hp].
  - replace p with (Z.to_nat (Z.of_nat p)) by lia.
    rewrite Hl, lookup_tab by lia. done.
  - rewrite !lookup_ge_None_2; [done| |lia].
    rewrite length_tab. lia.
Qed.

Lemma lookup_zeros n c :
  0 <= c < n -> replicate (Z.to_nat n) (0 : Q) !! Z.to_nat c = Some 0%Q.
Proof. intros Hc. apply lookup_replicate_2. lia. Qed.

(** Reading position [c] after a write at position [p]. *)
Lemma lookup_insert_Z {A} (l : list A) p c v :
  0 <= p < Z.of_nat (length l) -> 0 <= c ->
  <[Z.to_nat p := v]> l !! Z.to_nat c =
  if c =? p then Some v else l !! Z.to_nat c.
Proof.
  intros Hp Hc. destruct (Z.eqb_spec c p) as [->|Hne].
  - apply list_lookup_insert_eq. lia.
  - apply list_lookup_insert_ne. lia.
Qed.

(** ** The rows written by the loop body *)

(** Lines 98-102 turn a zero row into the stencil row, provided the five
    columns are in range. *)
Lemma interior_row_values N k :
  2 <= N -> N <= k -> k + N < N * N ->
  <[Z.to_nat (k - 1) := 1%Q]>
    (<[Z.to_nat (k + 1) := 1%Q]>
      (<[Z.to_nat (k + N) := 1%Q]>
        (<[Z.to_nat (k - N) := 1%Q]>
          (<[Z.to_nat k := (-4)%Q]> (replicate (Z.to_nat (N * N)) (0 : Q))))))
  = stencil_row N true k.
Proof.
  intros HN Hk1 Hk2. apply tab_ext.
  - by rewrite !length_insert, length_replicate.
  - intros c Hc.
    rewrite !lookup_insert_Z, lookup_zeros
      by (rewrite ?length_insert, ?length_replicate; lia).
    unfold stencil_entry.
    destruct (Z.eqb_spec c (k - 1)), (Z.eqb_spec c (k + 1)),
      (Z.eqb_spec c (k + N)), (Z.eqb_spec c (k - N)), (Z.eqb_spec c k);
      simpl; done || lia.
Qed.

(** Line 104 turns a zero row into the identity row. *)
Lemma boundary_row_values N k :
  0 <= k < N * N ->
  <[Z.to_nat k := 1%Q]> (replicate (Z.to_nat (N * N)) (0 : Q))
  = stencil_row N false k.
Proof.
  intros Hk. apply tab_ext.
  - by rewrite !length_insert, length_replicate.
  - intros c Hc.
    rewrite !lookup_insert_Z, lookup_zeros
      by (rewrite ?length_insert, ?length_replicate; lia).
    unfold stencil_entry. by destruct (Z.eqb_spec c k).
Qed.

(** ** The arrays between two iterations *)

Lemma matrix_upto_length N L k :
  length (matrix_upto N L k) = Z.to_nat (N * N).
Proof. apply length_tab. Qed.

Lemma rhs_upto_length g N L k :
  length (rhs_upto g N L k) = Z.to_nat (N * N).
Proof. apply length_tab. Qed.

Lemma matrix_upto_zero_row N L k :
  0 <= k < N * N ->
  matrix_upto N L k !! Z.to_nat k = Some (replicate (Z.to_nat (N * N)) (0 : Q)).
Proof.
  intros Hk. unfold matrix_upto. rewrite lookup_tab by done.
  by rewrite Z.ltb_irrefl.
Qed.

Lemma matrix_upto_step N L k :
  0 <= k < N * N ->
  <[Z.to_nat k := stencil_row N (inside_pt N L (k / N) (k mod N)) k]>
    (matrix_upto N L k) = matrix_upto N L (k + 1).
Proof.
  intros Hk. apply tab_ext.
  - by rewrite length_insert, matrix_upto_length.
  - intros r Hr. rewrite lookup_insert_Z by (rewrite ?matrix_upto_length; lia).
    unfold matrix_upto. rewrite lookup_tab by done.
    destruct (Z.eqb_spec r k) as [->|Hne].
    + destruct (Z.ltb_spec k (k + 1)); [done|lia].
    + destruct (Z.ltb_spec r k), (Z.ltb_spec r (k + 1)); done || lia.
Qed.

Lemma rhs_upto_step g N L k :
  0 <= k < N * N ->
  <[Z.to_nat k := rhs_entry g N L k]> (rhs_upto g N L k) =
  rhs_upto g N L (k + 1).
Proof.
  intros Hk. apply tab_ext.
  - by rewrite length_insert, rhs_upto_length.
  - intros r Hr. rewrite lookup_insert_Z by (rewrite ?rhs_upto_length; lia).
    unfold rhs_upto. rewrite lookup_tab by done.
    destruct (Z.eqb_spec r k) as [->|Hne].
    + destruct (Z.ltb_spec k (k + 1)); [done|lia].
    + destruct (Z.ltb_spec r k), (Z.ltb_spec r (k + 1)); done || lia.
Qed.

(** An interior row leaves [B[k] = 0]: nothing to write. *)
Lemma rhs_upto_skip g N L k :
  0 <= k < N * N ->
  inside_pt N L (k / N) (k mod N) = true ->
  rhs_upto g N L k = rhs_upto g N L (k + 1).
Proof.
  intros Hk Hin. apply tab_ext; [apply rhs_upto_length|].
  intros r Hr. unfold rhs_upto. rewrite lookup_tab by done.
  destruct (Z.ltb_spec r k), (Z.ltb_spec r (k + 1)); try done; try lia.
  assert (r = k) as -> by lia. unfold rhs_entry. by rewrite Hin.
Qed.

Lemma matrix_upto_start N L :
  matrix_upto N L 0 =
  replicate (Z.to_nat (N * N)) (replicate (Z.to_nat (N * N)) (0 : Q)).
Proof.
  apply list_eq. intros p. unfold matrix_upto.
  destruct (decide (p < Z.to_nat (N * N))%nat) as [Hp|Hp].
  - rewrite lookup_replicate_2 by done.
    replace p with (Z.to_nat (Z.of_nat p)) by lia.
    rewrite lookup_tab by lia.
    by destruct (Z.ltb_spec (Z.of_nat p) 0); [lia|].
  - rewrite !lookup_ge_None_2; [done|rewrite length_replicate; lia|].
    rewrite length_tab. lia.
Qed.

Lemma rhs_upto_start g N L :
  rhs_upto g N L 0 = replicate (Z.to_nat (N * N)) (0 : Q).
Proof.
  apply list_eq. intros p. unfold rhs_upto.
  destruct (decide (p < Z.to_nat (N * N))%nat) as [Hp|Hp].
  - rewrite lookup_replicate_2 by done.
    replace p with (Z.to_nat (Z.of_nat p)) by lia.
    rewrite lookup_tab by lia.
    by destruct (Z.ltb_spec (Z.of_nat p) 0); [lia|].
  - rewrite !lookup_ge_None_2; [done|rewrite length_replicate; lia|].
    rewrite length_tab. lia.
Qed.

Lemma matrix_upto_end N L : matrix_upto N L (N * N) = system_matrix N L.
Proof.
  symmetry. apply tab_ext; [apply length_tab|].
  intros r Hr. unfold system_matrix. rewrite lookup_tab by done.
  by destruct (Z.ltb_spec r (N * N)); [|lia].
Qed.

Lemma rhs_upto_end g N L : rhs_upto g N L (N * N) = system_rhs g N L.
Proof.
  symmetry. apply tab_ext; [apply length_tab|].
  intros r Hr. unfold system_rhs. rewrite lookup_tab by done.
  by destruct (Z.ltb_spec r (N * N)); [|lia].
Qed.

(** ** Loops *)

(** A [for] loop over consecutive integers carries an invariant indexed by
    the loop counter. *)
Lemma for_each_seqZ (P : Z -> heap -> Prop) (body : Z -> M unit) (len : nat) :
  forall s,
    (forall i h, s <= i < s + Z.of_nat len -> P i h ->
                 exists h', body i h = Ok (tt, h') /\ P (i + 1) h') ->
    forall h, P s h ->
              exists h', for_each (seqZ s (Z.of_nat len)) body h = Ok (tt, h')
                         /\ P (s + Z.of_nat len) h'.
Proof.
  induction len as [|len IH]; intros s Hbody h HP.
  - exists h. split; [done|]. by rewrite Z.add_0_r.
  - rewrite seqZ_cons by lia. simpl.
    destruct (Hbody s h) as (h1 & Hrun & HP1); [lia|done|].
    rewrite (bind_Ok _ _ _ _ _ Hrun).
    replace (Z.pred (Z.of_nat (S len))) with (Z.of_nat len) by lia.
    destruct (IH (Z.succ s)) with (h := h1) as (h2 & Hrun2 & HP2).
    + intros i h' Hi. apply Hbody. lia.
    + by replace (Z.succ s) with (s + 1) by lia.
    + exists h2. split; [done|].
      by replace (s + Z.of_nat (S len)) with (Z.succ s + Z.of_nat len) by lia.
Qed.

Lemma for_each_range (P : Z -> heap -> Prop) (body : Z -> M unit) n :
  0 <= n ->
  (forall i h, 0 <= i < n -> P i h ->
               exists h', body i h = Ok (tt, h') /\ P (i + 1) h') ->
  forall h, P 0 h ->
            exists h', for_each (range n) body h = Ok (tt, h') /\ P n h'.
Proof.
  intros Hn Hbody h HP. unfold range.
  destruct (for_each_seqZ P body (Z.to_nat n) 0) with (h := h)
    as (h' & Hrun & HP'); [|done|].
  - intros i h0 Hi. apply Hbody. lia.
  - rewrite Z2Nat.id in * by lia. by exists h'.
Qed.

(** ** One grid point *)

Lemma flat_div N i j : 0 <= j < N -> (i * N + j) / N = i.
Proof. intros Hj. symmetry. apply (Z.div_unique _ _ _ j); lia. Qed.

Lemma flat_mod N i j : 0 <= j < N -> (i * N + j) mod N = j.
Proof. intros Hj. symmetry. apply (Z.mod_unique _ _ i); lia. Qed.

Lemma flat_range N i j :
  0 <= i < N -> 0 <= j < N -> 0 <= i * N + j < N * N.
Proof. intros Hi Hj. nia. Qed.

(** The five columns of an interior row stay in range. *)
Lemma interior_flat_range N i j :
  interior N i j = true ->
  N <= i * N + j /\ i * N + j + N < N * N /\ 2 <= N.
Proof.
  unfold interior. rewrite !andb_true_iff, !Z.ltb_lt.
  intros [[[Hi1 Hi2] Hj1] Hj2]. nia.
Qed.

Lemma setitem2_row (h : heap) m b r c v row :
  (Z.to_nat r < length m)%nat ->
  0 <= r -> 0 <= c < Z.of_nat (length row) ->
  setitem2 (length h) r c v (h ++ [Arr2 (<[Z.to_nat r := row]> m); Arr1 b]) =
  Ok (tt, h ++ [Arr2 (<[Z.to_nat r := <[Z.to_nat c := v]> row]> m); Arr1 b]).
Proof.
  intros Hr Hr0 Hc.
  rewrite (setitem2_run h _ b r c v row); try done.
  - by rewrite list_insert_insert_eq.
  - by apply list_lookup_insert_eq.
Qed.

Lemma interior_row_run (h : heap) N L b i j :
  0 <= i < N -> 0 <= j < N ->
  interior N i j = true ->
  interior_row (length h) N i j
    (h ++ [Arr2 (matrix_upto N L (i * N + j)); Arr1 b]) =
  Ok (tt, h ++ [Arr2 (<[Z.to_nat (i * N + j) := stencil_row N true (i * N + j)]>
                        (matrix_upto N L (i * N + j))); Arr1 b]).
Proof.
  intros Hi Hj Hint.
  pose proof (flat_range N i j Hi Hj) as Hk.
  destruct (interior_flat_range N i j Hint) as (Hk1 & Hk2 & HN).
  set (k := i * N + j) in *.
  rewrite <- (interior_row_values N k) by done.
  rewrite <- (list_insert_id (matrix_upto N L k) (Z.to_nat k)
                (replicate (Z.to_nat (N * N)) (0 : Q))) at 1
    by (by apply matrix_upto_zero_row).
  unfold interior_row. fold k.
  replace ((i - 1) * N + j) with (k - N) by lia.
  replace ((i + 1) * N + j) with (k + N) by lia.
  assert (Hlen : (Z.to_nat k < length (matrix_upto N L k))%nat)
    by (rewrite matrix_upto_length; lia).
  repeat (erewrite bind_Ok;
          [|apply setitem2_row;
            [done|lia|rewrite ?length_insert, length_replicate; lia]]).
  apply setitem2_row;
    [done|lia|rewrite ?length_insert, length_replicate; lia].
Qed.

Lemma boundary_row_run (h : heap) (g : Q -> Q -> Q) N L xs i j :
  linspace (- L / 2) (L / 2) N = Ok xs ->
  0 <= i < N -> 0 <= j < N ->
  inside_pt N L i j = false ->
  boundary_row (total g) (length h) (S (length h))
    (meshgrid_ij xs xs).1 (meshgrid_ij xs xs).2 N i j
    (h ++ [Arr2 (matrix_upto N L (i * N + j));
           Arr1 (rhs_upto g N L (i * N + j))]) =
  Ok (tt, h ++ [Arr2 (matrix_upto N L (i * N + j + 1));
                Arr1 (rhs_upto g N L (i * N + j + 1))]).
Proof.
  intros Hxs Hi Hj Hout.
  pose proof (flat_range N i j Hi Hj) as Hk.
  pose proof (linspace_length _ _ _ _ Hxs) as Hlen.
  unfold boundary_row.
  erewrite bind_Ok.
  2:{ apply setitem2_run.
      - by apply matrix_upto_zero_row.
      - lia.
      - rewrite length_replicate. lia. }
  erewrite bind_Ok.
  2:{ apply lift_Ok, (getitem2_x_grid xs xs i j (grid_coord N L i));
        [by apply grid_coord_lookup|lia..]. }
  erewrite bind_Ok.
  2:{ apply lift_Ok, (getitem2_y_grid xs xs i j (grid_coord N L j));
        [by apply grid_coord_lookup|lia..]. }
  erewrite bind_Ok by (by apply lift_Ok).
  rewrite setitem1_run by (rewrite rhs_upto_length; lia).
  rewrite boundary_row_values by done.
  rewrite <- (matrix_upto_step N L (i * N + j)) by done.
  rewrite <- (rhs_upto_step g N L (i * N + j)) by done.
  unfold rhs_entry.
  by rewrite flat_div, flat_mod, Hout by lia.
Qed.

(** Lines 97-105 at the grid point [(i, j)]: row [i*N + j] of [A] and entry
    [i*N + j] of [B] get their final values. *)
Lemma grid_point_run (h : heap) (g : Q -> Q -> Q) N L xs i j :
  linspace (- L / 2) (L / 2) N = Ok xs ->
  0 <= i < N -> 0 <= j < N ->
  grid_point (total g) (length h) (S (length h))
    (meshgrid_ij xs xs).1 (meshgrid_ij xs xs).2 N L i j
    (h ++ [Arr2 (matrix_upto N L (i * N + j));
           Arr1 (rhs_upto g N L (i * N + j))]) =
  Ok (tt, h ++ [Arr2 (matrix_upto N L (i * N + j + 1));
                Arr1 (rhs_upto g N L (i * N + j + 1))]).
Proof.
  intros Hxs Hi Hj.
  pose proof (flat_range N i j Hi Hj) as Hk.
  unfold grid_point.
  erewrite bind_Ok by (apply lift_Ok; by apply inside_Omega_run).
  destruct (inside_pt N L i j) eqn:Hin.
  - assert (Hint : interior N i j = true).
    { rewrite inside_pt_interior in Hin by done.
      by apply andb_true_iff in Hin as [_ ?]. }
    rewrite interior_row_run by done.
    rewrite <- (rhs_upto_skip g N L (i * N + j))
      by (done || by rewrite flat_div, flat_mod by lia).
    rewrite <- (matrix_upto_step N L (i * N + j)) by done.
    by rewrite flat_div, flat_mod, Hin by lia.
  - by apply boundary_row_run.
Qed.

(** ** The whole assembly *)

Lemma np_zeros2_run n m (h : heap) :
  0 <= n -> 0 <= m ->
  np_zeros2 n m h =
  Ok (length h,
      h ++ [Arr2 (replicate (Z.to_nat n) (replicate (Z.to_nat m) (0 : Q)))]).
Proof.
  intros Hn Hm. unfold np_zeros2.
  by destruct (Z.ltb_spec n 0), (Z.ltb_spec m 0); try lia.
Qed.

Lemma np_zeros1_run n (h : heap) :
  0 <= n ->
  np_zeros1 n h = Ok (length h, h ++ [Arr1 (replicate (Z.to_nat n) (0 : Q))]).
Proof. intros Hn. unfold np_zeros1. by destruct (Z.ltb_spec n 0); try lia. Qed.

(** Lines 95-105: the two nested loops fill the arrays row by row. *)
Lemma assembly_loop_run (h : heap) (g : Q -> Q -> Q) N L xs :
  linspace (- L / 2) (L / 2) N = Ok xs ->
  0 <= N ->
  for_each (range N) (fun i =>
    for_each (range N) (fun j =>
      grid_point (total g) (length h) (S (length h))
        (meshgrid_ij xs xs).1 (meshgrid_ij xs xs).2 N L i j))
    (h ++ [Arr2 (matrix_upto N L 0); Arr1 (rhs_upto g N L 0)]) =
  Ok (tt, h ++ [Arr2 (system_matrix N L); Arr1 (system_rhs g N L)]).
Proof.
  intros Hxs HN.
  set (P := fun k (h' : heap) =>
    h' = h ++ [Arr2 (matrix_upto N L k); Arr1 (rhs_upto g N L k)]).
  set (inner := fun i j =>
    grid_point (total g) (length h) (S (length h))
      (meshgrid_ij xs xs).1 (meshgrid_ij xs xs).2 N L i j).
  assert (Hinner : forall i h1, 0 <= i < N -> P (i * N) h1 ->
            exists h2, for_each (range N) (inner i) h1 = Ok (tt, h2)
                       /\ P ((i + 1) * N) h2).
  { intros i h1 Hi HP1.
    destruct (for_each_range (fun j => P (i * N + j)) (inner i) N HN)
      with (h := h1) as (h2 & Hrun2 & HP2).
    - intros j h3 Hj ->. eexists. split; [by apply grid_point_run|].
      unfold P. by rewrite Z.add_assoc.
    - by rewrite Z.add_0_r.
    - exists h2. split; [exact Hrun2|].
      by replace ((i + 1) * N) with (i * N + N) by lia. }
  destruct (for_each_range (fun i => P (i * N))
              (fun i => for_each (range N) (inner i)) N HN Hinner)
    with (h := h ++ [Arr2 (matrix_upto N L 0); Arr1 (rhs_upto g N L 0)])
    as (h' & Hrun & HP); [done|].
  unfold P in HP. subst h'.
  rewrite matrix_upto_end, rhs_upto_end in Hrun. exact Hrun.
Qed.

(** Lines 82-107 for a boundary function that returns: the call allocates
    [A] and [B] after the arrays that exist already, fills them with the
    system in closed form, and returns their references. *)
Lemma matrix_builder_from_run (h : heap) (g : Q -> Q -> Q) N L :
  0 <= N ->
  matrix_builder_from (total g) N L h =
  Ok ((length h, S (length h)),
      h ++ [Arr2 (system_matrix N L); Arr1 (system_rhs g N L)]).
Proof.
  intros HN. unfold matrix_builder_from.
  destruct (linspace_total (- L / 2) (L / 2) N HN) as [xs Hxs].
  pose proof (linspace_length _ _ _ _ Hxs) as Hlen.
  rewrite !(bind_Ok _ _ _ _ _ (lift_Ok _ _ _ Hxs)).
  simpl.
  erewrite bind_Ok by (apply np_zeros2_run; lia).
  erewrite bind_Ok by (apply np_zeros1_run; lia).
  rewrite <- app_assoc, length_app, Nat.add_1_r. simpl.
  rewrite Hlen, Z2Nat.id by lia.
  rewrite <- matrix_upto_start with (L := L).
  rewrite <- rhs_upto_start with (g := g) (L := L).
  erewrite bind_Ok by (by apply (assembly_loop_run h g N L xs)).
  done.
Qed.

(** A negative [N] is refused by [np.linspace], before anything is
    allocated. *)
Lemma matrix_builder_from_negative (h : heap) g N L :
  N < 0 -> matrix_builder_from g N L h = Raise ValueError.
Proof.
  intros HN. unfold matrix_builder_from.
  apply bind_Raise. unfold lift. by rewrite linspace_negative.
Qed.


(** ** Reading the assembled system *)

Lemma system_matrix_length N L : length (system_matrix N L) = Z.to_nat (N * N).
Proof. apply length_tab. Qed.

Lemma system_rhs_length g N L : length (system_rhs g N L) = Z.to_nat (N * N).
Proof. apply length_tab. Qed.

Lemma system_matrix_rows N L :
  Forall (fun row => length row = Z.to_nat (N * N)) (system_matrix N L).
Proof.
  unfold system_matrix. rewrite Forall_fmap. apply Forall_forall.
  intros k _. apply length_tab.
Qed.

Lemma system_matrix_cell N L k c :
  0 <= k < N * N -> 0 <= c < N * N ->
  cell (system_matrix N L) k c =
  Some (stencil_entry N (inside_pt N L (k / N) (k mod N)) k c).
Proof.
  intros Hk Hc. unfold cell, system_matrix.
  destruct (Z.leb_spec 0 k), (Z.leb_spec 0 c); try lia. simpl.
  rewrite lookup_tab by done. simpl.
  unfold stencil_row. by rewrite lookup_tab.
Qed.

Lemma system_rhs_lookup g N L k :
  0 <= k < N * N ->
  system_rhs g N L !! Z.to_nat k = Some (rhs_entry g N L k).
Proof. intros Hk. unfold system_rhs. by rewrite lookup_tab. Qed.

(** On a valid grid the row of the point [(i, j)] is classified by the
    indices. *)
Lemma inside_pt_flat N L i j :
  (0 < L)%Q -> 0 <= i < N -> 0 <= j < N ->
  inside_pt N L ((i * N + j) / N) ((i * N + j) mod N) = interior N i j.
Proof.
  intros HL Hi Hj. rewrite flat_div, flat_mod by done.
  rewrite inside_pt_interior by done.
  apply Qltb_lt in HL. by rewrite HL.
Qed.

(** Without interior ([N < 2]) or without a domain ([L <= 0]) every point
    fails the test of line 97. *)
Lemma inside_pt_degenerate N L i j :
  N < 2 \/ (L <= 0)%Q -> 0 <= i < N -> 0 <= j < N ->
  inside_pt N L i j = false.
Proof.
  intros Hdeg Hi Hj. rewrite inside_pt_interior by done.
  destruct Hdeg as [HN|HL].
  - unfold interior.
    destruct (Z.ltb_spec 0 i), (Z.ltb_spec i (N - 1)); simpl;
      try apply andb_false_r; lia.
  - destruct (Qltb 0 L) eqn:E; [|done].
    apply Qltb_lt in E. lra.
Qed.

(** ** C1: the rows of the assembled system *)



(** ** C4: the classification of the grid points *)



(** ** C10: the interior branch writes inside the matrix *)

(** C10.  For every [N >= 2] and [L > 0], when the grid point [(i, j)]
    passes the test of line 97, the five flat indices written at lines
    98-102 lie in [[0, N*N)]: as indices of an axis of length [N*N] they
    are taken as they are (no [IndexError], no count from the end), the
    columns [k-1] and [k+1] belong to the grid row [i], the columns [k-N]
    and [k+N] to the same grid column [j] of the rows [i-1] and [i+1]. *)
Theorem interior_writes_in_range (N : Z) (L : Q) (xs : list Q) (i j : Z) :
  2 <= N -> (0 < L)%Q -> 0 <= i < N -> 0 <= j < N ->
  linspace (- L / 2) (L / 2) N = Ok xs ->
  inside_Omega (meshgrid_ij xs xs).1 (meshgrid_ij xs xs).2 L i j = Ok true ->
  Forall (fun idx => 0 <= idx < N * N
                     /\ np_index (Z.to_nat (N * N)) idx = Ok (Z.to_nat idx))
         [i * N + j; (i - 1) * N + j; (i + 1) * N + j;
          i * N + j + 1; i * N + j - 1]
  /\ ((i - 1) * N + j) / N = i - 1 /\ ((i - 1) * N + j) mod N = j
  /\ ((i + 1) * N + j) / N = i + 1 /\ ((i + 1) * N + j) mod N = j
  /\ (i * N + j + 1) / N = i /\ (i * N + j + 1) mod N = j + 1
  /\ (i * N + j - 1) / N = i /\ (i * N + j - 1) mod N = j - 1.
Proof.
  intros HN HL Hi Hj Hxs Hin.
  rewrite (inside_Omega_run N L xs i j) in Hin by done.
  injection Hin as Hin.
  rewrite inside_pt_interior in Hin by done.
  apply andb_true_iff in Hin as [_ Hint].
  destruct (interior_flat_range N i j Hint) as (Hk1 & Hk2 & _).
  unfold interior in Hint.
  rewrite !andb_true_iff, !Z.ltb_lt in Hint.
  destruct Hint as [[[Hi1 Hi2] Hj1] Hj2].
  split.
  - assert (Hin : forall idx, 0 <= idx < N * N ->
              0 <= idx < N * N
              /\ np_index (Z.to_nat (N * N)) idx = Ok (Z.to_nat idx)).
    { intros idx Hidx. split; [done|]. apply np_index_inrange. lia. }
    repeat (constructor; [apply Hin; nia|]).
    constructor.
  - rewrite <- !Z.add_assoc.
    replace (i * N + j - 1) with (i * N + (j - 1)) by lia.
    rewrite !flat_div, !flat_mod by lia. lia.
Qed.

Lemma interior_writes_in_range_witness :
  Forall (fun idx => 0 <= idx < 3 * 3
                     /\ np_index (Z.to_nat (3 * 3)) idx = Ok (Z.to_nat idx))
         [1 * 3 + 1; (1 - 1) * 3 + 1; (1 + 1) * 3 + 1;
          1 * 3 + 1 + 1; 1 * 3 + 1 - 1].
Proof.
  destruct (linspace_total (- (2) / 2) (2 / 2) 3) as [xs Hxs]; [lia|].
  destruct (interior_writes_in_range 3 2 xs 1 1) as [H _];
    [lia|reflexivity|lia|lia|exact Hxs| |exact H].
  rewrite (inside_Omega_run 3 2 xs 1 1) by (exact Hxs || lia).
  reflexivity.
Defined.

(** With [L = 0] the boundary function of lines 92-93 divides by zero the
    first time it is called, at the grid point [(0, 0)]. *)
Lemma matrix_builder_zero_domain (np_cos : Q -> Q) (np_pi : Q) (h : heap) N L :
  1 <= N -> (L == 0)%Q ->
  matrix_builder np_cos np_pi N L h = Raise ZeroDivisionError.
Proof.
  intros HN HL. unfold matrix_builder, matrix_builder_from.
  destruct (linspace_total (- L / 2) (L / 2) N) as [xs Hxs]; [lia|].
  pose proof (linspace_length _ _ _ _ Hxs) as Hlen.
  rewrite !(bind_Ok _ _ _ _ _ (lift_Ok _ _ _ Hxs)).
  unfold meshgrid_ij. cbv beta iota zeta.
  erewrite bind_Ok by (apply np_zeros2_run; lia).
  erewrite bind_Ok by (apply np_zeros1_run; lia).
  rewrite <- app_assoc, length_app, Nat.add_1_r. simpl app.
  rewrite Hlen, Z2Nat.id by lia.
  rewrite <- matrix_upto_start with (L := L).
  apply bind_Raise.
  unfold range. rewrite (seqZ_cons 0 N) by lia. simpl for_each.
  apply bind_Raise. simpl for_each.
  apply bind_Raise.
  unfold grid_point.
  erewrite bind_Ok by (apply lift_Ok; apply inside_Omega_run; done || lia).
  rewrite inside_pt_degenerate by (lia || (right; lra)).
  unfold boundary_row.
  erewrite bind_Ok.
  2:{ apply (setitem2_run h _ _ (0 * N + 0)).
      - apply matrix_upto_zero_row. nia.
      - lia.
      - rewrite length_replicate. nia. }
  erewrite bind_Ok.
  2:{ apply lift_Ok, (getitem2_x_grid xs xs 0 0 (grid_coord N L 0));
        [apply grid_coord_lookup; done || lia|lia..]. }
  erewrite bind_Ok.
  2:{ apply lift_Ok, (getitem2_y_grid xs xs 0 0 (grid_coord N L 0));
        [apply grid_coord_lookup; done || lia|lia..]. }
  apply bind_Raise. unfold lift, g.
  apply Qeq_bool_iff in HL. by rewrite HL.
Qed.

(** ** C2: what the assembler does with [N < 2] or [L <= 0] *)

(** C2 fails on the code: the assembler checks neither [N] nor [L].  With
    [N = 1] and [L = 1] it returns the system of order one, with [N = 2]
    and [L = -2] it returns the identity of order four. *)
Lemma assemble_accepts_degenerate_input :
  matrix_builder_from (total (fun _ _ => 1%Q)) 1 1 [] =
    Ok ((0%nat, 1%nat), [Arr2 [[1%Q]]; Arr1 [1%Q]])
  /\ matrix_builder_from (total (fun _ _ => 1%Q)) 2 (-2) [] =
       Ok ((0%nat, 1%nat),
           [Arr2 [[1; 0; 0; 0]; [0; 1; 0; 0]; [0; 0; 1; 0]; [0; 0; 0; 1]]%Q;
            Arr1 [1; 1; 1; 1]%Q]).
Proof. split; reflexivity. Qed.

(** C2, amended.  The assembler validates nothing itself.  A negative [N]
    is refused with the [ValueError] of [np.linspace], and nothing is
    returned.  For [N >= 0] with [N < 2] or [L <= 0] and a boundary function
    that returns, the call returns: every grid point is a boundary point,
    [A] is the identity of order [N*N] and [B[i*N + j] = g(x_i, y_j)].  With
    the boundary function of lines 92-93, [L = 0] and [N >= 1] the call
    fails with the [ZeroDivisionError] of [2*np.pi/L], and nothing is
    returned. *)
Theorem assemble_degenerate (g : Q -> Q -> Q) (N : Z) (L : Q) (h : heap) :
  (N < 0 -> matrix_builder_from (total g) N L h = Raise ValueError)
  /\ (0 <= N -> N < 2 \/ (L <= 0)%Q ->
      exists A B,
        matrix_builder_from (total g) N L h =
          Ok ((length h, S (length h)), h ++ [Arr2 A; Arr1 B])
        /\ length A = Z.to_nat (N * N)
        /\ length B = Z.to_nat (N * N)
        /\ (forall k c, 0 <= k < N * N -> 0 <= c < N * N ->
              cell A k c = Some (if c =? k then 1%Q else 0%Q))
        /\ (forall i j, 0 <= i < N -> 0 <= j < N ->
              B !! Z.to_nat (i * N + j) =
              Some (g (grid_coord N L i) (grid_coord N L j))))
  /\ (forall (np_cos : Q -> Q) (np_pi : Q),
        1 <= N -> (L == 0)%Q ->
        matrix_builder np_cos np_pi N L h = Raise ZeroDivisionError).
Proof.
  split; [apply matrix_builder_from_negative|].
  split; [|intros np_cos np_pi; apply matrix_builder_zero_domain].
  intros HN Hdeg.
  exists (system_matrix N L), (system_rhs g N L).
  split; [by apply matrix_builder_from_run|].
  split; [apply system_matrix_length|].
  split; [apply system_rhs_length|].
  split.
  - intros k c Hk Hc. rewrite system_matrix_cell by done.
    rewrite inside_pt_degenerate; [done|done|..].
    + split; [apply Z.div_pos; lia|apply Z.div_lt_upper_bound; nia].
    + apply Z.mod_pos_bound. nia.
  - intros i j Hi Hj.
    rewrite system_rhs_lookup by (by apply flat_range).
    unfold rhs_entry. rewrite flat_div, flat_mod by lia.
    by rewrite inside_pt_degenerate.
Qed.

Lemma assemble_degenerate_witness :
  matrix_builder_from (total (fun x y => x + y)%Q) (-1) 2 [] = Raise ValueError
  /\ exists A B,
       matrix_builder_from (total (fun x y => x + y)%Q) 2 (-2) [] =
         Ok ((0%nat, 1%nat), [Arr2 A; Arr1 B])
       /\ cell A 3 3 = Some 1%Q /\ cell A 3 2 = Some 0%Q.
Proof.
  split.
  - destruct (assemble_degenerate (fun x y => x + y)%Q (-1) 2 [])
      as (H & _ & _).
    apply H. lia.
  - destruct (assemble_degenerate (fun x y => x + y)%Q 2 (-2) [])
      as (_ & H & _).
    destruct H as (A & B & Hrun & _ & _ & HA & _);
      [lia|right; reflexivity || (intros H; discriminate H)|].
    exists A, B. split; [exact Hrun|].
    split; [apply (HA 3 3)|apply (HA 3 2)]; lia.
Defined.

(** ** C9: the assembler is deterministic and leaves the store alone *)

(** C9.  Two calls of the assembler with the same [N], [L] and boundary
    function, started in any two stores, either both raise the same
    exception or both return; when they return, each store is the one the
    call started in followed by the two new arrays [A] and [B] (no array
    that existed before is changed), the references returned are those of
    the new arrays, and [A] and [B] are the same in both calls. *)
Theorem assemble_deterministic (g : Q -> Q -> Q) (N : Z) (L : Q)
    (h1 h2 : heap) :
  match matrix_builder_from (total g) N L h1,
        matrix_builder_from (total g) N L h2 with
  | Ok ((a1, b1), h1'), Ok ((a2, b2), h2') =>
      exists A B,
        h1' = h1 ++ [Arr2 A; Arr1 B] /\ h2' = h2 ++ [Arr2 A; Arr1 B]
        /\ a1 = length h1 /\ b1 = S (length h1)
        /\ a2 = length h2 /\ b2 = S (length h2)
  | Raise e1, Raise e2 => e1 = e2
  | _, _ => False
  end.
Proof.
  destruct (Z.lt_ge_cases N 0) as [HN|HN].
  - by rewrite !matrix_builder_from_negative.
  - rewrite !matrix_builder_from_run by done.
    by exists (system_matrix N L), (system_rhs g N L).
Qed.

(** ** Counting *)














(** ** C5: the nonzero entries of the assembled matrix *)



(** ** The codec *)

Lemma chunks_length rows n X : length (chunks rows n X) = rows.
Proof.
  revert X. induction rows as [|rows IH]; intros X; simpl; [done|].
  by rewrite IH.
Qed.

Lemma chunks_lookup rows n X i :
  (i < rows)%nat -> chunks rows n X !! i = Some (take n (drop (i * n) X)).
Proof.
  revert X i. induction rows as [|rows IH]; intros X [|i] Hi; try lia.
  - by rewrite drop_0.
  - simpl. rewrite IH by lia. by rewrite drop_drop.
Qed.

Lemma chunks_rows rows n X :
  length X = (rows * n)%nat ->
  Forall (fun row => length row = n) (chunks rows n X).
Proof.
  revert X. induction rows as [|rows IH]; intros X HX; simpl.
  - constructor.
  - constructor.
    + rewrite length_take. lia.
    + apply IH. rewrite length_drop. lia.
Qed.

Lemma concat_chunks rows n X :
  length X = (rows * n)%nat -> concat (chunks rows n X) = X.
Proof.
  revert X. induction rows as [|rows IH]; intros X HX; simpl.
  - by destruct X.
  - rewrite IH by (rewrite length_drop; lia). apply take_drop.
Qed.

Lemma chunks_concat n (field : list (list Q)) :
  Forall (fun row => length row = n) field ->
  chunks (length field) n (concat field) = field.
Proof.
  induction 1 as [|row field Hrow _ IH]; [done|]. simpl.
  rewrite take_app_length', drop_app_length' by done.
  by rewrite IH.
Qed.

Lemma concat_length_rows n (field : list (list Q)) :
  Forall (fun row => length row = n) field ->
  length (concat field) = (length field * n)%nat.
Proof.
  induction 1 as [|row field Hrow _ IH]; [done|]. simpl.
  rewrite length_app. lia.
Qed.

Lemma toField_Ok X N :
  0 <= N -> Z.of_nat (length X) = N * N ->
  toField X N = Ok (chunks (Z.to_nat N) (Z.to_nat N) X).
Proof.
  intros HN HX. unfold toField, reshape2.
  destruct (Z.ltb_spec N 0); [lia|]. simpl.
  by destruct (Z.eqb_spec (Z.of_nat (length X)) (N * N)).
Qed.

Lemma toVector_Ok field N :
  Z.of_nat (length field) = N ->
  Forall (fun row => length row = Z.to_nat N) field ->
  toVector field N = Ok (concat field).
Proof.
  intros Hlen Hrows. unfold toVector.
  destruct (Z.leb_spec 0 N); [|lia].
  destruct (Z.eqb_spec (Z.of_nat (length field)) N); [|done]. simpl.
  replace (forallb _ field) with true; [done|].
  symmetry. apply forallb_forall. intros row Hin.
  rewrite Forall_forall in Hrows. apply Hrows in Hin.
  apply Z.eqb_eq. lia.
Qed.

(** Line 117: the reshape reads the vector row by row. *)
Lemma reshape_cells (X : list Q) (N : Z) :
  0 <= N -> Z.of_nat (length X) = N * N ->
  exists field,
    reshape2 X N N = Ok field
    /\ forall i j, 0 <= i < N -> 0 <= j < N ->
         is_Some (cell field i j)
         /\ cell field i j = X !! Z.to_nat (i * N + j).
Proof.
  intros HN HX.
  exists (chunks (Z.to_nat N) (Z.to_nat N) X).
  split; [by apply toField_Ok|].
  intros i j Hi Hj. unfold cell.
  destruct (Z.leb_spec 0 i), (Z.leb_spec 0 j); try lia. simpl.
  rewrite chunks_lookup by lia. simpl.
  rewrite lookup_take_lt by lia. rewrite lookup_drop.
  replace (Z.to_nat i * Z.to_nat N + Z.to_nat j)%nat
    with (Z.to_nat (i * N + j)) by nia.
  split; [|done]. apply lookup_lt_is_Some_2. nia.
Qed.

(** ** C7: decoding and encoding are mutual inverses *)

(** C7.  For every vector [X] of length [N*N], [toField(X, N)] is a field
    with [field[i][j] = X[i*N + j]] and [toVector(toField(X, N), N)] is [X];
    and for every [N x N] field, [toField(toVector(field, N), N)] is the
    field. *)
Theorem codec_roundtrip (X : list Q) (N : Z) :
  0 <= N -> Z.of_nat (length X) = N * N ->
  exists field,
    toField X N = Ok field
    /\ (forall i j, 0 <= i < N -> 0 <= j < N ->
          is_Some (cell field i j)
          /\ cell field i j = X !! Z.to_nat (i * N + j))
    /\ toVector field N = Ok X
    /\ (forall field' : list (list Q),
          Z.of_nat (length field') = N ->
          Forall (fun row => Z.of_nat (length row) = N) field' ->
          exists X', toVector field' N = Ok X' /\ toField X' N = Ok field').
Proof.
  intros HN HX.
  assert (HXn : length X = (Z.to_nat N * Z.to_nat N)%nat) by lia.
  destruct (reshape_cells X N HN HX) as (field & Hf & Hcell).
  exists field.
  change (toField X N = Ok field) in Hf.
  split; [exact Hf|]. split; [exact Hcell|].
  rewrite toField_Ok in Hf by done.
  injection Hf as <-.
  split.
  - rewrite toVector_Ok.
    + by rewrite concat_chunks.
    + rewrite chunks_length. lia.
    + by apply chunks_rows.
  - intros field' Hlen Hrows.
    assert (Hrows' : Forall (fun row => length row = Z.to_nat N) field').
    { eapply List.Forall_impl; [|exact Hrows]. simpl. intros row Hr. lia. }
    exists (concat field'). split; [by apply toVector_Ok|].
    rewrite toField_Ok.
    + replace (Z.to_nat N) with (length field') at 1 by lia.
      by rewrite chunks_concat.
    + done.
    + rewrite (concat_length_rows (Z.to_nat N)) by done. nia.
Qed.

Lemma codec_roundtrip_witness :
  exists field,
    toField [1; 2; 3; 4]%Q 2 = Ok field
    /\ toVector field 2 = Ok [1; 2; 3; 4]%Q.
Proof.
  destruct (codec_roundtrip [1; 2; 3; 4]%Q 2)
    as (field & Hf & _ & Hv & _); [lia|reflexivity|].
  by exists field.
Defined.

(** ** The dense solve *)




Lemma system_matrix_square N L : is_square (system_matrix N L) = true.
Proof.
  unfold is_square. apply forallb_forall. intros row Hin.
  pose proof (system_matrix_rows N L) as Hrows.
  rewrite Forall_forall in Hrows. apply Hrows in Hin.
  rewrite system_matrix_length. by apply Nat.eqb_eq.
Qed.

(** Lines 109-110 on the assembled system: [A] and [B] are left as they
    are, the solution is appended to the store. *)
Lemma matrix_solver_run (h : heap) g N L :
  matrix_solver (length h) (S (length h))
    (h ++ [Arr2 (system_matrix N L); Arr1 (system_rhs g N L)]) =
  Ok (S (S (length h)),
      h ++ [Arr2 (system_matrix N L); Arr1 (system_rhs g N L);
            Arr1 (lu_solve (lu_factor (system_matrix N L))
                    (system_rhs g N L))]).
Proof.
  unfold matrix_solver.
  rewrite !(lookup_app_r h) by lia.
  rewrite Nat.sub_diag.
  replace (S (length h) - length h)%nat with 1%nat by lia. simpl.
  rewrite system_matrix_square, system_matrix_length, system_rhs_length.
  rewrite Nat.eqb_refl. simpl. unfold alloc.
  rewrite length_app. simpl.
  rewrite <- app_assoc. simpl.
  do 2 f_equal. lia.
Qed.




(** ** C3: the dense solver entry point *)




(** ** C8: the constant boundary on the [3 x 3] grid *)

(** C8.  For [N = 3], [L = 2] and the constant boundary function
    [g(x, y) = 1], assembling, solving and decoding yields the field that is
    [1] at every grid point; the solution satisfies [A X = B]. *)
Theorem constant_boundary_scenario (h : heap) :
  exists A B X field,
    matrix_builder_from (total (fun _ _ => 1%Q)) 3 2 h =
      Ok ((length h, S (length h)), h ++ [Arr2 A; Arr1 B])
    /\ matrix_solver (length h) (S (length h)) (h ++ [Arr2 A; Arr1 B]) =
         Ok (S (S (length h)), h ++ [Arr2 A; Arr1 B; Arr1 X])
    /\ solves A X B = true
    /\ toField X 3 = Ok field
    /\ field = [[1; 1; 1]; [1; 1; 1]; [1; 1; 1]]%Q.
Proof.
  exists (system_matrix 3 2), (system_rhs (fun _ _ => 1%Q) 3 2).
  exists (lu_solve (lu_factor (system_matrix 3 2))
            (system_rhs (fun _ _ => 1%Q) 3 2)).
  exists [[1; 1; 1]; [1; 1; 1]; [1; 1; 1]]%Q.
  split; [apply matrix_builder_from_run; lia|].
  split; [apply matrix_solver_run|].
  split; [by vm_compute|].
  split; [by vm_compute|done].
Qed.

(** * Further properties of the cell *)

(** ** The equations that the rows encode *)

Lemma item_lookup (X : list Q) k v :
  X !! Z.to_nat k = Some v -> item X k = v.
Proof. unfold item. by intros ->. Qed.

Lemma item_tab (f : Z -> Q) n k :
  0 <= k < n -> item (f <$> seqZ 0 n) k = f k.
Proof. intros Hk. apply item_lookup. by apply lookup_tab. Qed.

Lemma dot_zeros n (X : list Q) : (dot (replicate n (0 : Q)) X == 0)%Q.
Proof.
  unfold dot. revert X. induction n as [|n IH]; intros [|x X]; simpl;
    try reflexivity.
  rewrite IH. ring.
Qed.

(** Writing [v] over a zero adds [v * X[p]] to the product of the row
    with [X]. *)
Lemma dot_insert (row X : list Q) (p : nat) (v x : Q) :
  row !! p = Some 0%Q -> X !! p = Some x ->
  (dot (<[p := v]> row) X == dot row X + v * x)%Q.
Proof.
  unfold dot. revert p X.
  induction row as [|r row IH]; intros [|p] [|x0 X] Hr Hx; try done.
  - injection Hr as ->. injection Hx as ->. simpl. ring.
  - simpl in *. rewrite (IH p X Hr Hx). ring.
Qed.

(** The product of an interior row with [X] is the five-point stencil. *)
Lemma dot_interior N k (X : list Q) :
  2 <= N -> N <= k -> k + N < N * N ->
  length X = Z.to_nat (N * N) ->
  (dot (stencil_row N true k) X ==
   item X (k - N) + item X (k + N) + item X (k + 1) + item X (k - 1)
   - 4 * item X k)%Q.
Proof.
  intros HN Hk1 Hk2 HX. rewrite <- interior_row_values by done.
  assert (Hx : forall c, 0 <= c < N * N ->
                         X !! Z.to_nat c = Some (item X c)).
  { intros c Hc. unfold item.
    destruct (lookup_lt_is_Some_2 X (Z.to_nat c)) as [v ->]; [lia|done]. }
  repeat (rewrite dot_insert;
          [|rewrite ?lookup_insert_Z
              by (rewrite ?length_insert, ?length_replicate; lia);
            repeat (match goal with
                    | |- context [?a =? ?b] =>
                        destruct (Z.eqb_spec a b); [lia|]
                    end);
            apply lookup_zeros; lia
           |apply Hx; lia]).
  rewrite dot_zeros. ring.
Qed.

(** The product of a boundary row with [X] is [X[k]]. *)
Lemma dot_boundary N k (X : list Q) :
  0 <= k < N * N -> length X = Z.to_nat (N * N) ->
  (dot (stencil_row N false k) X == item X k)%Q.
Proof.
  intros Hk HX. rewrite <- boundary_row_values by done.
  rewrite (dot_insert _ _ _ _ (item X k)).
  - rewrite dot_zeros. ring.
  - apply lookup_zeros. lia.
  - unfold item.
    destruct (lookup_lt_is_Some_2 X (Z.to_nat k)) as [v ->]; [lia|done].
Qed.

(** [solves] row by row. *)
Lemma solves_spec (a : list (list Q)) (x b : list Q) :
  solves a x b = true <->
  length a = length b
  /\ forall k row bk, a !! k = Some row -> b !! k = Some bk ->
                      (dot row x == bk)%Q.
Proof.
  unfold solves. rewrite andb_true_iff, Nat.eqb_eq, forallb_forall.
  apply and_iff_compat_l. split.
  - intros H k row bk Hrow Hb. apply Qeq_bool_iff.
    apply (H (row, bk)). apply list_elem_of_In, list_elem_of_lookup.
    exists k. apply lookup_zip_with_Some. eauto.
  - intros H [row bk] Hin.
    apply list_elem_of_In, list_elem_of_lookup in Hin as [k Hk].
    apply lookup_zip_with_Some in Hk as (row' & bk' & [= -> ->] & Hrow & Hb).
    apply Qeq_bool_iff. eauto.
Qed.

Lemma system_row_equation (g : Q -> Q -> Q) N L (X : list Q) i j :
  2 <= N -> (0 < L)%Q -> length X = Z.to_nat (N * N) ->
  0 <= i < N -> 0 <= j < N ->
  (dot (stencil_row N (inside_pt N L ((i * N + j) / N) ((i * N + j) mod N))
          (i * N + j)) X == rhs_entry g N L (i * N + j))%Q
  <-> point_equation g N L X i j.
Proof.
  intros HN HL HX Hi Hj.
  pose proof (flat_range N i j Hi Hj) as Hk.
  unfold rhs_entry, point_equation.
  rewrite inside_pt_flat by done.
  destruct (interior N i j) eqn:Hint.
  - destruct (interior_flat_range N i j Hint) as (Hk1 & Hk2 & _).
    rewrite dot_interior by done.
    replace ((i - 1) * N + j) with (i * N + j - N) by lia.
    replace ((i + 1) * N + j) with (i * N + j + N) by lia.
    reflexivity.
  - rewrite dot_boundary by done.
    by rewrite flat_div, flat_mod by lia.
Qed.

(** A vector solves the assembled system exactly when it satisfies the
    equation of every grid point. *)
Lemma system_solves_iff (g : Q -> Q -> Q) N L (X : list Q) :
  2 <= N -> (0 < L)%Q -> length X = Z.to_nat (N * N) ->
  solves (system_matrix N L) X (system_rhs g N L) = true
  <-> forall i j, 0 <= i < N -> 0 <= j < N -> point_equation g N L X i j.
Proof.
  intros HN HL HX. rewrite solves_spec.
  rewrite system_matrix_length, system_rhs_length. split.
  - intros [_ H] i j Hi Hj.
    pose proof (flat_range N i j Hi Hj) as Hk.
    apply system_row_equation; try done.
    apply (H (Z.to_nat (i * N + j))).
    + unfold system_matrix. by rewrite lookup_tab.
    + by apply system_rhs_lookup.
  - intros H. split; [done|]. intros k row bk Hrow Hb.
    assert (Hk : (k < Z.to_nat (N * N))%nat).
    { apply lookup_lt_Some in Hrow. by rewrite system_matrix_length in Hrow. }
    set (i := Z.of_nat k / N). set (j := Z.of_nat k mod N).
    assert (Hi : 0 <= i < N).
    { split; [apply Z.div_pos; lia|apply Z.div_lt_upper_bound; nia]. }
    assert (Hj : 0 <= j < N) by (apply Z.mod_pos_bound; lia).
    assert (Hkeq : Z.of_nat k = i * N + j).
    { unfold i, j. rewrite (Z.div_mod (Z.of_nat k) N) at 1 by lia. lia. }
    replace k with (Z.to_nat (i * N + j)) in Hrow, Hb by lia.
    unfold system_matrix in Hrow. rewrite lookup_tab in Hrow by lia.
    rewrite system_rhs_lookup in Hb by lia.
    injection Hrow as <-. injection Hb as <-.
    apply system_row_equation; try done. by apply H.
Qed.

(** X1.  For every [N >= 2], [L > 0] and boundary function [g], a vector
    [X] of length [N*N] solves the system [A X = B] that the assembler
    returns exactly when [X[i*N + j] = g(x_i, y_j)] at every boundary point
    and [X[(i-1)*N + j] + X[(i+1)*N + j] + X[i*N + j+1] + X[i*N + j-1]
    - 4 X[i*N + j] = 0] at every interior point. *)
Theorem assembled_system_equations (g : Q -> Q -> Q) (N : Z) (L : Q)
    (h : heap) (X : list Q) :
  2 <= N -> (0 < L)%Q -> length X = Z.to_nat (N * N) ->
  exists A B,
    matrix_builder_from (total g) N L h =
      Ok ((length h, S (length h)), h ++ [Arr2 A; Arr1 B])
    /\ (solves A X B = true
        <-> forall i j, 0 <= i < N -> 0 <= j < N ->
              if interior N i j then
                (item X ((i - 1) * N + j) + item X ((i + 1) * N + j)
                 + item X (i * N + j + 1) + item X (i * N + j - 1)
                 - 4 * item X (i * N + j) == 0)%Q
              else
                (item X (i * N + j)
                 == g (grid_coord N L i) (grid_coord N L j))%Q).
Proof.
  intros HN HL HX.
  exists (system_matrix N L), (system_rhs g N L).
  split; [apply matrix_builder_from_run; lia|].
  by apply system_solves_iff.
Qed.

Lemma assembled_system_equations_witness :
  exists A B,
    matrix_builder_from (total (fun x y => x + y)%Q) 3 2 [] =
      Ok ((0%nat, 1%nat), [Arr2 A; Arr1 B])
    /\ (solves A [-2; -1; 0; -1; 0; 1; 0; 1; 2]%Q B = true
        -> (item [-2; -1; 0; -1; 0; 1; 0; 1; 2]%Q 1
            + item [-2; -1; 0; -1; 0; 1; 0; 1; 2]%Q 7
            + item [-2; -1; 0; -1; 0; 1; 0; 1; 2]%Q 5
            + item [-2; -1; 0; -1; 0; 1; 0; 1; 2]%Q 3
            - 4 * item [-2; -1; 0; -1; 0; 1; 0; 1; 2]%Q 4 == 0)%Q).
Proof.
  destruct (assembled_system_equations (fun x y => x + y)%Q 3 2 []
              [-2; -1; 0; -1; 0; 1; 0; 1; 2]%Q)
    as (A & B & Hrun & Hiff); [lia|reflexivity|reflexivity|].
  exists A, B. split; [exact Hrun|].
  intros Hs. apply (proj1 Hiff Hs 1 1); lia.
Defined.

(** ** The assembled system has one solution *)

(** A function on [0 <= k < n] attains its maximum. *)
Lemma grid_max_exists (d : Z -> Q) (n : nat) :
  (0 < n)%nat ->
  exists k, 0 <= k < Z.of_nat n
            /\ forall k', 0 <= k' < Z.of_nat n -> (d k' <= d k)%Q.
Proof.
  induction n as [|n IH]; [lia|]. intros _.
  destruct n as [|n].
  - exists 0. split; [lia|]. intros k' Hk'.
    assert (k' = 0) as -> by lia. apply Qle_refl.
  - destruct IH as (k & Hk & Hmax); [lia|].
    destruct (Qlt_le_dec (d k) (d (Z.of_nat (S n)))) as [Hlt|Hle].
    + exists (Z.of_nat (S n)). split; [lia|]. intros k' Hk'.
      destruct (decide (k' = Z.of_nat (S n))) as [->|Hne];
        [apply Qle_refl|].
      apply Qle_trans with (d k); [apply Hmax; lia|by apply Qlt_le_weak].
    + exists k. split; [lia|]. intros k' Hk'.
      destruct (decide (k' = Z.of_nat (S n))) as [->|Hne]; [done|].
      apply Hmax. lia.
Qed.

Section MaximumPrinciple.
Variable N : Z.
Variable d : Z -> Q.
Hypothesis d_boundary :
  forall i j, 0 <= i < N -> 0 <= j < N -> interior N i j = false ->
              (d (i * N + j)%Z <= 0)%Q.
Hypothesis d_interior :
  forall i j, 0 <= i < N -> 0 <= j < N -> interior N i j = true ->
              (d ((i - 1) * N + j)%Z + d ((i + 1) * N + j)%Z
               + d (i * N + j + 1)%Z + d (i * N + j - 1)%Z
               - 4 * d (i * N + j)%Z == 0)%Q.

(** A value that bounds [d] from above and is attained is not positive:
    from an interior point where it is attained it is attained one grid
    row up, and so on to the frame. *)
Lemma attained_bound_nonpositive (M : Q) :
  (forall k, 0 <= k < N * N -> (d k <= M)%Q) ->
  forall (n : nat) i j,
    i = Z.of_nat n -> 0 <= i < N -> 0 <= j < N ->
    (d (i * N + j)%Z == M)%Q -> (M <= 0)%Q.
Proof.
  intros Hle. induction n as [|n IH]; intros i j Hn Hi Hj Hd.
  - rewrite <- Hd. apply d_boundary; try done.
    unfold interior. subst i. done.
  - destruct (interior N i j) eqn:Hint.
    + pose proof (d_interior i j Hi Hj Hint) as Hst.
      destruct (interior_flat_range N i j Hint) as (Hk1 & Hk2 & HN).
      unfold interior in Hint.
      rewrite !andb_true_iff, !Z.ltb_lt in Hint.
      destruct Hint as [[[Hi1 Hi2] Hj1] Hj2].
      pose proof (Hle ((i - 1) * N + j)) as H1.
      pose proof (Hle ((i + 1) * N + j)) as H2.
      pose proof (Hle (i * N + j + 1)) as H3.
      pose proof (Hle (i * N + j - 1)) as H4.
      apply (IH (i - 1) j); [lia|lia|lia|].
      apply Qle_antisym; [apply H1; nia|].
      specialize (H2 ltac:(nia)). specialize (H3 ltac:(nia)).
      specialize (H4 ltac:(nia)). lra.
    + rewrite <- Hd. by apply d_boundary.
Qed.

Lemma harmonic_nonpositive :
  1 <= N -> forall k, 0 <= k < N * N -> (d k <= 0)%Q.
Proof.
  intros HN k Hk.
  destruct (grid_max_exists d (Z.to_nat (N * N))) as (k0 & Hk0 & Hmax);
    [lia|].
  rewrite Z2Nat.id in * by lia.
  assert (Hi : 0 <= k0 / N < N)
    by (split; [apply Z.div_pos; lia|apply Z.div_lt_upper_bound; nia]).
  assert (Hj : 0 <= k0 mod N < N) by (apply Z.mod_pos_bound; lia).
  assert (Hkeq : k0 / N * N + k0 mod N = k0)
    by (rewrite (Z.div_mod k0 N) at 3 by lia; lia).
  assert (H0 : (d k0 <= 0)%Q).
  { apply (attained_bound_nonpositive (d k0) Hmax (Z.to_nat (k0 / N))
             (k0 / N) (k0 mod N)); try done; [lia|].
    by rewrite Hkeq. }
  apply Qle_trans with (d k0); [by apply Hmax|done].
Qed.
End MaximumPrinciple.

(** A grid function that vanishes on the frame and satisfies the stencil
    equation inside vanishes everywhere. *)
Lemma harmonic_zero (N : Z) (d : Z -> Q) :
  1 <= N ->
  (forall i j, 0 <= i < N -> 0 <= j < N -> interior N i j = false ->
               (d (i * N + j)%Z == 0)%Q) ->
  (forall i j, 0 <= i < N -> 0 <= j < N -> interior N i j = true ->
               (d ((i - 1) * N + j)%Z + d ((i + 1) * N + j)%Z
                + d (i * N + j + 1)%Z + d (i * N + j - 1)%Z
                - 4 * d (i * N + j)%Z == 0)%Q) ->
  forall k, 0 <= k < N * N -> (d k == 0)%Q.
Proof.
  intros HN Hb Hi k Hk. apply Qle_antisym.
  - apply (harmonic_nonpositive N d); try done.
    intros i j Hi' Hj' Hint. rewrite (Hb i j) by done. apply Qle_refl.
  - assert (H : (- d k <= 0)%Q).
    { apply (harmonic_nonpositive N (fun k => - d k)%Q); try done.
      - intros i j Hi' Hj' Hint. rewrite (Hb i j) by done. discriminate.
      - intros i j Hi' Hj' Hint. pose proof (Hi i j Hi' Hj' Hint). lra. }
    lra.
Qed.

(** Two solutions of the assembled system agree. *)
Lemma system_unique (g : Q -> Q -> Q) N L (X Y : list Q) :
  2 <= N -> (0 < L)%Q ->
  length X = Z.to_nat (N * N) -> length Y = Z.to_nat (N * N) ->
  solves (system_matrix N L) X (system_rhs g N L) = true ->
  solves (system_matrix N L) Y (system_rhs g N L) = true ->
  forall k, 0 <= k < N * N -> (item X k == item Y k)%Q.
Proof.
  intros HN HL HX HY HsX HsY k Hk.
  rewrite system_solves_iff in HsX, HsY by done.
  assert (H : (item X k - item Y k == 0)%Q); [|lra].
  apply (harmonic_zero N (fun k => item X k - item Y k)%Q); try done; [lia|..].
  - intros i j Hi Hj Hint.
    pose proof (HsX i j Hi Hj) as HXe. pose proof (HsY i j Hi Hj) as HYe.
    unfold point_equation in *. rewrite Hint in *. lra.
  - intros i j Hi Hj Hint.
    pose proof (HsX i j Hi Hj) as HXe. pose proof (HsY i j Hi Hj) as HYe.
    unfold point_equation in *. rewrite Hint in *. lra.
Qed.

(** X2.  For every [N >= 2], [L > 0] and boundary function [g], the
    system [A X = B] that the assembler returns has at most one solution:
    two vectors of length [N*N] that solve it are equal entry by entry. *)
Theorem assembled_system_unique (g : Q -> Q -> Q) (N : Z) (L : Q)
    (h : heap) (X Y : list Q) :
  2 <= N -> (0 < L)%Q ->
  length X = Z.to_nat (N * N) -> length Y = Z.to_nat (N * N) ->
  exists A B,
    matrix_builder_from (total g) N L h =
      Ok ((length h, S (length h)), h ++ [Arr2 A; Arr1 B])
    /\ (solves A X B = true -> solves A Y B = true ->
        forall k, 0 <= k < N * N -> (item X k == item Y k)%Q).
Proof.
  intros HN HL HX HY.
  exists (system_matrix N L), (system_rhs g N L).
  split; [apply matrix_builder_from_run; lia|].
  intros HsX HsY. by apply (system_unique g N L).
Qed.

Lemma assembled_system_unique_witness :
  exists A B,
    matrix_builder_from (total (fun x y => x + y)%Q) 3 2 [] =
      Ok ((0%nat, 1%nat), [Arr2 A; Arr1 B])
    /\ solves A [-2; -1; 0; -1; 0; 1; 0; 1; 2]%Q B = true
    /\ (item [-2; -1; 0; -1; 0; 1; 0; 1; 2]%Q 4
        == item [-2; -1; 0; -1; 0 # 5; 1; 0; 1; 2]%Q 4)%Q.
Proof.
  destruct (assembled_system_unique (fun x y => x + y)%Q 3 2 []
              [-2; -1; 0; -1; 0; 1; 0; 1; 2]%Q
              [-2; -1; 0; -1; 0 # 5; 1; 0; 1; 2]%Q)
    as (A & B & Hrun & Huniq); [lia|reflexivity|reflexivity|reflexivity|].
  exists A, B. split; [exact Hrun|].
  pose proof Hrun as Hrun'.
  rewrite matrix_builder_from_run in Hrun' by lia.
  injection Hrun' as <- <-.
  split; [by vm_compute|].
  apply Huniq; [by vm_compute|by vm_compute|lia].
Defined.

(** ** The matrix is not symmetric *)



(** ** Affine boundary data *)

Lemma grid_samples_length g N L :
  length (grid_samples g N L) = Z.to_nat (N * N).
Proof. apply length_tab. Qed.

Lemma grid_samples_item g N L i j :
  0 <= i < N -> 0 <= j < N ->
  item (grid_samples g N L) (i * N + j) =
  g (grid_coord N L i) (grid_coord N L j).
Proof.
  intros Hi Hj. unfold grid_samples.
  rewrite item_tab by (by apply flat_range).
  by rewrite flat_div, flat_mod by lia.
Qed.

(** Neighbouring samples are one step [h = L/(N-1)] apart. *)
Lemma grid_coord_step N L i :
  2 <= N -> 0 <= i -> i + 1 < N ->
  (grid_coord N L (i + 1) == grid_coord N L i + L / inject_Z (N - 1))%Q.
Proof.
  intros HN Hi Hi1. rewrite !grid_coord_eq by lia.
  rewrite inject_Z_plus.
  assert (Hd : ~ (inject_Z (N - 1) == 0)%Q).
  { intros Hd. change 0%Q with (inject_Z 0) in Hd.
    rewrite inject_Z_injective in Hd. lia. }
  change (inject_Z 1) with 1%Q. field. done.
Qed.

(** The samples of an affine function satisfy every equation. *)
Lemma affine_samples_solve (a b c : Q) N L :
  2 <= N -> (0 < L)%Q ->
  solves (system_matrix N L)
         (grid_samples (fun x y => a * x + b * y + c)%Q N L)
         (system_rhs (fun x y => a * x + b * y + c)%Q N L) = true.
Proof.
  intros HN HL.
  apply system_solves_iff; [done|done|apply grid_samples_length|].
  intros i j Hi Hj. unfold point_equation.
  destruct (interior N i j) eqn:Hint.
  - unfold interior in Hint.
    rewrite !andb_true_iff, !Z.ltb_lt in Hint.
    destruct Hint as [[[Hi1 Hi2] Hj1] Hj2].
    replace (i * N + j + 1) with (i * N + (j + 1)) by lia.
    replace (i * N + j - 1) with (i * N + (j - 1)) by lia.
    rewrite !grid_samples_item by lia.
    pose proof (grid_coord_step N L (i - 1) HN ltac:(lia) ltac:(lia)) as Hx1.
    pose proof (grid_coord_step N L i HN ltac:(lia) ltac:(lia)) as Hx2.
    pose proof (grid_coord_step N L (j - 1) HN ltac:(lia) ltac:(lia)) as Hy1.
    pose proof (grid_coord_step N L j HN ltac:(lia) ltac:(lia)) as Hy2.
    replace (i - 1 + 1) with i in Hx1 by lia.
    replace (j - 1 + 1) with j in Hy1 by lia.
    rewrite Hx2, Hy2, Hx1, Hy1. ring.
  - rewrite grid_samples_item by done. reflexivity.
Qed.

(** X4.  For every [N >= 2], [L > 0] and affine boundary function
    [g(x, y) = a x + b y + c], the vector of the samples [g(x_i, y_j)]
    solves the assembled system, and every vector of length [N*N] that
    solves it has [X[i*N + j] = a x_i + b y_j + c] at every grid point:
    the discretisation reproduces affine data exactly. *)
Theorem affine_boundary_exact (a b c : Q) (N : Z) (L : Q) (h : heap)
    (X : list Q) :
  2 <= N -> (0 < L)%Q -> length X = Z.to_nat (N * N) ->
  exists A B,
    matrix_builder_from (total (fun x y => a * x + b * y + c)%Q) N L h =
      Ok ((length h, S (length h)), h ++ [Arr2 A; Arr1 B])
    /\ solves A (grid_samples (fun x y => a * x + b * y + c)%Q N L) B = true
    /\ (solves A X B = true ->
        forall i j, 0 <= i < N -> 0 <= j < N ->
          (item X (i * N + j)
           == a * grid_coord N L i + b * grid_coord N L j + c)%Q).
Proof.
  intros HN HL HX.
  exists (system_matrix N L),
    (system_rhs (fun x y => a * x + b * y + c)%Q N L).
  split; [apply matrix_builder_from_run; lia|].
  split; [by apply affine_samples_solve|].
  intros Hs i j Hi Hj.
  rewrite (system_unique (fun x y => a * x + b * y + c)%Q N L X
             (grid_samples (fun x y => a * x + b * y + c)%Q N L));
    try done.
  - by rewrite grid_samples_item.
  - apply grid_samples_length.
  - by apply affine_samples_solve.
  - by apply flat_range.
Qed.

Lemma affine_boundary_exact_witness :
  exists A B,
    matrix_builder_from (total (fun x y => 1 * x + 1 * y + 0)%Q) 3 2 [] =
      Ok ((0%nat, 1%nat), [Arr2 A; Arr1 B])
    /\ solves A (grid_samples (fun x y => 1 * x + 1 * y + 0)%Q 3 2) B = true.
Proof.
  destruct (affine_boundary_exact 1 1 0 3 2 []
              [-2; -1; 0; -1; 0; 1; 0; 1; 2]%Q)
    as (A & B & Hrun & Hs & _); [lia|reflexivity|reflexivity|].
  by exists A, B.
Defined.

(** ** Diagonal dominance *)







(** ** The boundary function is called on the frame only *)

Section PartialBoundary.
Variable gp : Q -> Q -> result Q.
Variable g0 : Q -> Q -> Q.
Variable N : Z.
Variable L : Q.
Hypothesis gp_frame :
  forall i j, 0 <= i < N -> 0 <= j < N -> inside_pt N L i j = false ->
              gp (grid_coord N L i) (grid_coord N L j) =
              Ok (g0 (grid_coord N L i) (grid_coord N L j)).


End PartialBoundary.



(** ** [plot_solution] and the single-point grid *)

(** X7.  [plot_solution(N, L, X)] on a stored vector [X]: with [N = 1] it
    fails with [ZeroDivisionError] (the step [L/(N-1)] of line 113); with
    any other [N] that is negative or whose square is not the number of
    entries of [X] it fails with [ValueError] (the reshape of line 117);
    with [N >= 2] and [N*N] entries it returns [None] and leaves the store
    as it was. *)
Theorem plot_solution_outcome (N : Z) (L : Q) (X : ref) (v : list Q)
    (h : heap) :
  h !! X = Some (Arr1 v) ->
  (N = 1 -> plot_solution N L X h = Raise ZeroDivisionError)
  /\ (N <> 1 -> N < 0 \/ Z.of_nat (length v) <> N * N ->
      plot_solution N L X h = Raise ValueError)
  /\ (2 <= N -> Z.of_nat (length v) = N * N ->
      plot_solution N L X h = Ok (PyNone, h)).
Proof.
  intros HX. unfold plot_solution.
  split; [intros ->; by apply bind_Raise|].
  assert (Hdiv : N <> 1 -> py_div L (N - 1) = Ok (L / inject_Z (N - 1))%Q).
  { intros HN1. unfold py_div. by destruct (Z.eqb_spec (N - 1) 0); [lia|]. }
  split.
  - intros HN1 Hbad.
    rewrite (bind_Ok _ _ _ _ _ (lift_Ok _ _ h (Hdiv HN1))).
    apply bind_Raise. rewrite HX. unfold lift, reshape2.
    destruct (Z.ltb_spec N 0); simpl; [done|].
    by destruct (Z.eqb_spec (Z.of_nat (length v)) (N * N)); [lia|].
  - intros HN Hlen.
    rewrite (bind_Ok _ _ _ _ _ (lift_Ok _ _ h (Hdiv ltac:(lia)))).
    erewrite bind_Ok.
    2:{ rewrite HX. apply lift_Ok. apply (toField_Ok v N); [lia|done]. }
    set (a := (- L / 2 - _)%Q). set (b := (L / 2 + _)%Q).
    destruct (linspace_total a b (N + 1)) as [xc Hxc]; [lia|].
    by rewrite !(bind_Ok _ _ _ _ _ (lift_Ok _ _ h Hxc)).
Qed.

Lemma plot_solution_outcome_witness :
  plot_solution 2 1 0 [Arr1 [1; 2; 3]%Q] = Raise ValueError
  /\ plot_solution 1 1 0 [Arr1 [1]%Q] = Raise ZeroDivisionError
  /\ plot_solution 2 1 0 [Arr1 [1; 2; 3; 4]%Q] =
       Ok (PyNone, [Arr1 [1; 2; 3; 4]%Q]).
Proof.
  split; [|split].
  - destruct (plot_solution_outcome 2 1 0 [1; 2; 3]%Q [Arr1 [1; 2; 3]%Q])
      as (_ & H & _); [reflexivity|].
    apply H; [lia|]. right. simpl. lia.
  - destruct (plot_solution_outcome 1 1 0 [1]%Q [Arr1 [1]%Q])
      as (H & _ & _); [reflexivity|].
    by apply H.
  - destruct (plot_solution_outcome 2 1 0 [1; 2; 3; 4]%Q
                [Arr1 [1; 2; 3; 4]%Q]) as (_ & _ & H); [reflexivity|].
    apply H; [lia|reflexivity].
Defined.




(** ** The cells of the plot *)

(** The samples of [np.linspace(a, b, n)] are evenly spaced. *)
Lemma linspace_item a b n xs i :
  2 <= n -> 0 <= i < n -> linspace a b n = Ok xs ->
  (item xs i == a + inject_Z i * ((b - a) / inject_Z (n - 1)))%Q.
Proof.
  intros Hn Hi. unfold linspace, item.
  destruct (Z.ltb_spec n 0); [lia|].
  destruct (Z.ltb_spec 1 n); [|lia].
  destruct (Z.ltb_spec 0 (n - 1)); [|lia].
  intros [= <-].
  assert (Hd : ~ (inject_Z (n - 1) == 0)%Q).
  { intros Hd. change 0%Q with (inject_Z 0) in Hd.
    rewrite inject_Z_injective in Hd. lia. }
  destruct (decide (i = n - 1)) as [->|Hne].
  - rewrite list_lookup_insert_eq.
    + simpl. field. done.
    + destruct (Qeq_bool _ _); rewrite !length_fmap, length_seqZ; lia.
  - rewrite list_lookup_insert_ne by lia.
    destruct (Qeq_bool _ _);
      rewrite !list_lookup_fmap, lookup_seqZ_lt by lia; simpl;
      rewrite Z2Nat.id, Z.add_0_l by lia; field; done.
Qed.

(** X9.  For every [N >= 2], with the step [h = L/(N-1)] of line 113, the
    [N + 1] corner points of lines 123-124 enclose the grid points: the
    [i]-th cell [[c_i, c_(i+1)]] has width [h] and the grid coordinate
    [x_i] of the assembler as its midpoint, [c_i = x_i - h/2] and
    [c_(i+1) = x_i + h/2].  These are the arguments that [plot_solution]
    passes to [plt.pcolor]. *)
Theorem plot_cells_centred (N : Z) (L : Q) (i : Z) :
  2 <= N -> 0 <= i < N ->
  exists hstep cs,
    py_div L (N - 1) = Ok hstep
    /\ corner_points N L hstep = Ok cs
    /\ length cs = Z.to_nat (N + 1)
    /\ (item cs i == grid_coord N L i - hstep / 2)%Q
    /\ (item cs (i + 1) == grid_coord N L i + hstep / 2)%Q
    /\ (forall X : ref,
          plot_solution N L X =
          (h ← lift (py_div L (N - 1));
           z_grid ← (fun s => match s !! X with
                              | Some (Arr1 v) => lift (reshape2 v N N) s
                              | Some (Arr2 _) => Raise ValueError
                              | None => Raise NameError
                              end);
           x_corner_points ← lift (corner_points N L h);
           y_corner_points ← lift (corner_points N L h);
           ret PyNone)).
Proof.
  intros HN Hi.
  assert (Hd : ~ (inject_Z (N - 1) == 0)%Q).
  { intros Hd. change 0%Q with (inject_Z 0) in Hd.
    rewrite inject_Z_injective in Hd. lia. }
  assert (HdN : ~ (inject_Z N == 0)%Q).
  { intros Hd'. change 0%Q with (inject_Z 0) in Hd'.
    rewrite inject_Z_injective in Hd'. lia. }
  exists (L / inject_Z (N - 1))%Q.
  destruct (linspace_total (- L / 2 - L / inject_Z (N - 1) / 2)
              (L / 2 + L / inject_Z (N - 1) / 2) (N + 1)) as [cs Hcs]; [lia|].
  exists cs.
  split; [unfold py_div; by destruct (Z.eqb_spec (N - 1) 0); [lia|]|].
  split; [exact Hcs|].
  split; [by apply linspace_length in Hcs|].
  assert (HN1 : (inject_Z N == inject_Z (N - 1) + 1)%Q).
  { replace N with (N - 1 + 1) at 1 by lia. by rewrite inject_Z_plus. }
  assert (Hpos : (1 <= inject_Z (N - 1))%Q).
  { change 1%Q with (inject_Z 1). rewrite <- Zle_Qle. lia. }
  split; [|split; [|done]].
  - rewrite (linspace_item _ _ (N + 1) cs i) by (done || lia).
    rewrite grid_coord_eq by lia.
    replace (N + 1 - 1) with N by lia.
    rewrite HN1. field. lra.
  - rewrite (linspace_item _ _ (N + 1) cs (i + 1)) by (done || lia).
    rewrite grid_coord_eq by lia.
    replace (N + 1 - 1) with N by lia.
    rewrite inject_Z_plus. change (inject_Z 1) with 1%Q.
    rewrite HN1. field. lra.
Qed.

Lemma plot_cells_centred_witness :
  exists hstep cs,
    py_div 2 (3 - 1) = Ok hstep
    /\ corner_points 3 2 hstep = Ok cs
    /\ (item cs 1 == grid_coord 3 2 1 - hstep / 2)%Q.
Proof.
  destruct (plot_cells_centred 3 2 1)
    as (hstep & cs & Hh & Hcs & _ & Hlo & _); [lia|lia|].
  by exists hstep, cs.
Defined.

(** ** The solution stays between the extremes of the boundary data *)

Lemma system_bounded_above (g : Q -> Q -> Q) N L (X : list Q) (M : Q) :
  2 <= N -> (0 < L)%Q -> length X = Z.to_nat (N * N) ->
  (forall i j, 0 <= i < N -> 0 <= j < N -> interior N i j = false ->
               (g (grid_coord N L i) (grid_coord N L j) <= M)%Q) ->
  solves (system_matrix N L) X (system_rhs g N L) = true ->
  forall k, 0 <= k < N * N -> (item X k <= M)%Q.
Proof.
  intros HN HL HX Hg Hs k Hk.
  rewrite system_solves_iff in Hs by done.
  assert (H : (item X k - M <= 0)%Q); [|lra].
  apply (harmonic_nonpositive N (fun k => item X k - M)%Q); try done; [..|lia].
  - intros i j Hi Hj Hint. pose proof (Hs i j Hi Hj) as He.
    unfold point_equation in He. rewrite Hint in He.
    pose proof (Hg i j Hi Hj Hint). lra.
  - intros i j Hi Hj Hint. pose proof (Hs i j Hi Hj) as He.
    unfold point_equation in He. rewrite Hint in He. lra.
Qed.

Lemma system_bounded_below (g : Q -> Q -> Q) N L (X : list Q) (m : Q) :
  2 <= N -> (0 < L)%Q -> length X = Z.to_nat (N * N) ->
  (forall i j, 0 <= i < N -> 0 <= j < N -> interior N i j = false ->
               (m <= g (grid_coord N L i) (grid_coord N L j))%Q) ->
  solves (system_matrix N L) X (system_rhs g N L) = true ->
  forall k, 0 <= k < N * N -> (m <= item X k)%Q.
Proof.
  intros HN HL HX Hg Hs k Hk.
  rewrite system_solves_iff in Hs by done.
  assert (H : (m - item X k <= 0)%Q); [|lra].
  apply (harmonic_nonpositive N (fun k => m - item X k)%Q); try done; [..|lia].
  - intros i j Hi Hj Hint. pose proof (Hs i j Hi Hj) as He.
    unfold point_equation in He. rewrite Hint in He.
    pose proof (Hg i j Hi Hj Hint). lra.
  - intros i j Hi Hj Hint. pose proof (Hs i j Hi Hj) as He.
    unfold point_equation in He. rewrite Hint in He. lra.
Qed.

(** X10.  For every [N >= 2], [L > 0] and boundary function [g]: when the
    values [g(x_i, y_j)] at the boundary grid points all lie between [m]
    and [M], every entry of every vector of length [N*N] that solves the
    assembled system lies between [m] and [M] (discrete maximum
    principle). *)
Theorem discrete_maximum_principle (g : Q -> Q -> Q) (N : Z) (L : Q)
    (h : heap) (X : list Q) (m M : Q) :
  2 <= N -> (0 < L)%Q -> length X = Z.to_nat (N * N) ->
  (forall i j, 0 <= i < N -> 0 <= j < N -> interior N i j = false ->
               (m <= g (grid_coord N L i) (grid_coord N L j) <= M)%Q) ->
  exists A B,
    matrix_builder_from (total g) N L h =
      Ok ((length h, S (length h)), h ++ [Arr2 A; Arr1 B])
    /\ (solves A X B = true ->
        forall k, 0 <= k < N * N -> (m <= item X k <= M)%Q).
Proof.
  intros HN HL HX Hg.
  exists (system_matrix N L), (system_rhs g N L).
  split; [apply matrix_builder_from_run; lia|].
  intros Hs k Hk. split.
  - apply (system_bounded_below g N L X m); try done.
    intros i j Hi Hj Hint. by apply Hg.
  - apply (system_bounded_above g N L X M); try done.
    intros i j Hi Hj Hint. by apply Hg.
Qed.

Lemma discrete_maximum_principle_witness :
  exists A B,
    matrix_builder_from (total (fun x y => x + y)%Q) 3 2 [] =
      Ok ((0%nat, 1%nat), [Arr2 A; Arr1 B])
    /\ solves A [-2; -1; 0; -1; 0; 1; 0; 1; 2]%Q B = true
    /\ (-2 <= item [-2; -1; 0; -1; 0; 1; 0; 1; 2]%Q 4 <= 2)%Q.
Proof.
  destruct (discrete_maximum_principle (fun x y => x + y)%Q 3 2 []
              [-2; -1; 0; -1; 0; 1; 0; 1; 2]%Q (-2) 2)
    as (A & B & Hrun & Hbound); [lia|reflexivity|reflexivity| |].
  - intros i j Hi Hj Hint.
    assert (Hij : (i = 0 \/ i = 1 \/ i = 2) /\ (j = 0 \/ j = 1 \/ j = 2))
      by lia.
    destruct Hij as [[->|[->| ->]] [->|[->| ->]]];
      by (split; intros H; discriminate H).
  - exists A, B. split; [exact Hrun|].
    pose proof Hrun as Hrun'.
    rewrite matrix_builder_from_run in Hrun' by lia.
    injection Hrun' as <- <-.
    assert (Hs : solves (system_matrix 3 2) [-2; -1; 0; -1; 0; 1; 0; 1; 2]%Q
                   (system_rhs (fun x y => x + y)%Q 3 2) = true)
      by (by vm_compute).
    split; [exact Hs|]. apply Hbound; [exact Hs|lia].
Defined.

(** ** TD5: the hat function *)

Lemma u0_cases x :
  ((Qabs x <= 1 /\ u0 x == 1 - Qabs x) \/ (1 < Qabs x /\ u0 x == 0))%Q.
Proof.
  unfold u0, np_maximum.
  destruct (Qle_bool 0 (1 - Qabs x)) eqn:E.
  - left. apply Qle_bool_iff in E. split; [lra|reflexivity].
  - right. split; [|reflexivity].
    apply Qnot_le_lt. intros H. apply not_true_iff_false in E. apply E.
    apply Qle_bool_iff. lra.
Qed.

Lemma Qabs_cases x :
  ((0 <= x /\ Qabs x == x) \/ (x < 0 /\ Qabs x == - x))%Q.
Proof.
  destruct (Qlt_le_dec x 0) as [H|H].
  - right. split; [done|]. apply Qabs_neg. lra.
  - left. split; [done|]. by apply Qabs_pos.
Qed.

(** X11.  The initial condition [u0] of TD5 is the hat function: its
    values lie in [[0, 1]], it is even (so [u0(-L) = u0(L)], as the periodic
    boundary condition asks), it vanishes exactly where [|x| >= 1], and it
    is 1-Lipschitz; applied to an array it keeps the length. *)
Theorem u0_hat (x y : Q) (xs : list Q) :
  (0 <= u0 x <= 1)%Q
  /\ (u0 (- x) == u0 x)%Q
  /\ ((u0 x == 0)%Q <-> (1 <= Qabs x)%Q)
  /\ (Qabs (u0 x - u0 y) <= Qabs (x - y))%Q
  /\ length (u0_array xs) = length xs
  /\ (forall k v, xs !! k = Some v -> u0_array xs !! k = Some (u0 v)).
Proof.
  split; [|split; [|split; [|split; [|split]]]].
  - pose proof (Qabs_nonneg x).
    destruct (u0_cases x) as [[H1 H2]|[H1 H2]]; rewrite H2; split; lra.
  - destruct (u0_cases x) as [[H1 H2]|[H1 H2]],
      (u0_cases (- x)) as [[H3 H4]|[H3 H4]];
      rewrite Qabs_opp in *; rewrite H2, H4; lra.
  - destruct (u0_cases x) as [[H1 H2]|[H1 H2]]; rewrite H2; split; lra.
  - destruct (u0_cases x) as [[H1 H2]|[H1 H2]],
      (u0_cases y) as [[H3 H4]|[H3 H4]]; rewrite H2, H4;
      destruct (Qabs_cases x) as [[Hx Hax]|[Hx Hax]],
        (Qabs_cases y) as [[Hy Hay]|[Hy Hay]];
      rewrite Hax in *; rewrite Hay in *;
      apply Qabs_Qle_condition;
      destruct (Qabs_cases (x - y)) as [[Hd Had]|[Hd Had]];
      rewrite Had; split; lra.
  - apply length_fmap.
  - intros k v Hk. unfold u0_array. by rewrite list_lookup_fmap, Hk.
Qed.
